(** * MetaVote: the poll lifecycle of the confidential polling contract

    A shallow embedding of the Solidity contract [MetaVote] (create, vote,
    finalize, publish and the read operations) together with the properties
    of its poll state machine.

    Unsigned 256-bit quantities (poll identifiers, timestamps, array
    lengths) are values of [N]; the contract only compares them and
    increments loop counters that stay far below [2^256], so no wrap-around
    occurs on them.  Encrypted 32-bit counters wrap modulo [2^32]. *)

From stdpp Require Import base option numbers list gmap strings.
From Stdlib Require Import NArith Lia.

Local Open Scope N_scope.

(** ** Primitive Solidity types *)

Definition address := N.
Definition bytes := list Byte.byte.

Definition uint32_modulus : N := 2 ^ 32.

(** [uint32(i)]: the explicit narrowing conversion keeps the low 32 bits. *)
Definition uint32 (i : N) : N := i mod uint32_modulus.

(** ** The encrypted domain *)

Module FHE.

(** Modelled from the spec: the handle types of the external FHE library
    ([euint32], [ebool]).  A handle is opaque to the contract; the model
    records the plaintext it hides and the two access flags the contract
    sets on it (readable by the contract itself, publicly decryptable). *)
Record euint32 : Type := Euint32 {
  clear : N;
  allowedThis : bool;
  publiclyDecryptable : bool
}.

Record ebool : Type := Ebool { holds : bool }.

(** Modelled from the spec: [encryptConstant], a fresh handle for a known
    plaintext. *)
Definition asEuint32 (v : N) : euint32 :=
  {| clear := v mod uint32_modulus;
     allowedThis := false; publiclyDecryptable := false |}.

(** Modelled from the spec: [equals], the encrypted equality test. *)
Definition eq (a b : euint32) : ebool :=
  {| holds := clear a =? clear b |}.

(** Modelled from the spec: [add], addition of 32-bit encrypted integers;
    the sum of two [euint32] is again a [euint32], so it is reduced
    modulo [2^32]. *)
Definition add (a b : euint32) : euint32 :=
  {| clear := (clear a + clear b) mod uint32_modulus;
     allowedThis := false; publiclyDecryptable := false |}.

(** Modelled from the spec: [select], the oblivious choice between two
    encrypted integers. *)
Definition select (c : ebool) (a b : euint32) : euint32 :=
  {| clear := if holds c then clear a else clear b;
     allowedThis := false; publiclyDecryptable := false |}.

(** Modelled from the spec: marking a handle readable by the contract. *)
Definition allowThis (h : euint32) : euint32 :=
  {| clear := clear h; allowedThis := true;
     publiclyDecryptable := publiclyDecryptable h |}.

(** Modelled from the spec: [markDecryptable]; the handle keeps its
    hidden value and becomes eligible for public decryption. *)
Definition makePubliclyDecryptable (h : euint32) : euint32 :=
  {| clear := clear h; allowedThis := allowedThis h;
     publiclyDecryptable := true |}.

End FHE.

(** Modelled from the spec: the two verifying capabilities of the external
    FHE library whose answer depends on a cryptographic proof.
    [verifyInput] is the check behind [FHE.fromExternal]: it yields the
    plaintext bound to an external handle when the input proof is valid for
    the caller.  [verifySignatures] is the check behind
    [FHE.checkSignatures] on handles, claimed clear values and proof. *)
Class Coprocessor : Type := {
  verifyInput : address -> N -> bytes -> option N;
  verifySignatures : list FHE.euint32 -> list N -> bytes -> bool
}.

(** ** Contract storage *)

Record Poll : Type := mkPoll {
  title : string;
  options : list string;
  tallies : list FHE.euint32;
  startTime : N;
  endTime : N;
  creator : address;
  finalized : bool;
  resultsPublished : bool;
  publicResults : list N;
  publicDecryptionProof : bytes
}.

(** The element [polls.push()] appends: every field has its zero value. *)
Definition emptyPoll : Poll :=
  mkPoll "" [] [] 0 0 0 false false [] [].

Definition set_title (v : string) (p : Poll) : Poll :=
  mkPoll v (options p) (tallies p) (startTime p) (endTime p) (creator p)
         (finalized p) (resultsPublished p) (publicResults p)
         (publicDecryptionProof p).
Definition set_options (v : list string) (p : Poll) : Poll :=
  mkPoll (title p) v (tallies p) (startTime p) (endTime p) (creator p)
         (finalized p) (resultsPublished p) (publicResults p)
         (publicDecryptionProof p).
Definition set_tallies (v : list FHE.euint32) (p : Poll) : Poll :=
  mkPoll (title p) (options p) v (startTime p) (endTime p) (creator p)
         (finalized p) (resultsPublished p) (publicResults p)
         (publicDecryptionProof p).
Definition set_startTime (v : N) (p : Poll) : Poll :=
  mkPoll (title p) (options p) (tallies p) v (endTime p) (creator p)
         (finalized p) (resultsPublished p) (publicResults p)
         (publicDecryptionProof p).
Definition set_endTime (v : N) (p : Poll) : Poll :=
  mkPoll (title p) (options p) (tallies p) (startTime p) v (creator p)
         (finalized p) (resultsPublished p) (publicResults p)
         (publicDecryptionProof p).
Definition set_creator (v : address) (p : Poll) : Poll :=
  mkPoll (title p) (options p) (tallies p) (startTime p) (endTime p) v
         (finalized p) (resultsPublished p) (publicResults p)
         (publicDecryptionProof p).
Definition set_finalized (v : bool) (p : Poll) : Poll :=
  mkPoll (title p) (options p) (tallies p) (startTime p) (endTime p)
         (creator p) v (resultsPublished p) (publicResults p)
         (publicDecryptionProof p).
Definition set_resultsPublished (v : bool) (p : Poll) : Poll :=
  mkPoll (title p) (options p) (tallies p) (startTime p) (endTime p)
         (creator p) (finalized p) v (publicResults p)
         (publicDecryptionProof p).
Definition set_publicResults (v : list N) (p : Poll) : Poll :=
  mkPoll (title p) (options p) (tallies p) (startTime p) (endTime p)
         (creator p) (finalized p) (resultsPublished p) v
         (publicDecryptionProof p).
Definition set_publicDecryptionProof (v : bytes) (p : Poll) : Poll :=
  mkPoll (title p) (options p) (tallies p) (startTime p) (endTime p)
         (creator p) (finalized p) (resultsPublished p) (publicResults p) v.

Inductive Event : Type :=
| PollCreated (pollId : N) (title : string) (startTime endTime : N)
| VoteSubmitted (pollId : N) (voter : address)
| PollFinalized (pollId : N)
| ResultsPublished (pollId : N) (results : list N).

(** [polls] is the append-only registry, [votes] the nested mapping
    [pollId => voter => bool] (absent keys read as [false]), [events] the
    log of emitted notifications. *)
Record Storage : Type := mkStorage {
  polls : list Poll;
  votes : gmap (N * address) bool;
  events : list Event
}.

Definition genesis : Storage := mkStorage [] ∅ [].

Definition set_polls (f : list Poll -> list Poll) (s : Storage) : Storage :=
  mkStorage (f (polls s)) (votes s) (events s).
Definition set_votes (f : gmap (N * address) bool -> gmap (N * address) bool)
    (s : Storage) : Storage :=
  mkStorage (polls s) (f (votes s)) (events s).
Definition set_events (f : list Event -> list Event) (s : Storage) : Storage :=
  mkStorage (polls s) (votes s) (f (events s)).

(** The custom errors of the contract, the two failures raised inside the
    FHE library, and the Solidity panic of an out-of-bounds array access. *)
Inductive Error : Type :=
| InvalidPoll
| InvalidWindow
| InvalidOptions
| PollNotActive
| PollAlreadyFinalized
| PollNotFinished
| AlreadyVoted
| MismatchedResults
| ResultsAlreadyPublished
| InvalidInputProof
| InvalidKMSSignatures
| Panic.

(** ** Execution monad

    A call either completes with a value and the storage it wrote, or
    reverts with an error.  [Revert] also carries the storage as it stood
    at the point of failure, which tells mutations made before the failing
    check apart from a failure on untouched storage; [transact] then
    discards it, as the EVM does. *)
Inductive Outcome (A : Type) : Type :=
| Done (a : A) (s : Storage)
| Revert (e : Error) (s : Storage).
Arguments Done {A} a s.
Arguments Revert {A} e s.

Definition Tx (A : Type) : Type := Storage -> Outcome A.

#[global] Instance Tx_ret : MRet Tx := fun A a s => Done a s.
#[global] Instance Tx_bind : MBind Tx := fun A B f m s =>
  match m s with
  | Done a s' => f a s'
  | Revert e s' => Revert e s'
  end.

Definition revert {A : Type} (e : Error) : Tx A := fun s => Revert e s.
Definition gets {A : Type} (f : Storage -> A) : Tx A := fun s => Done (f s) s.
Definition modify (f : Storage -> Storage) : Tx unit := fun s => Done tt (f s).

(** [if (c) revert e;] *)
Definition revertIf (c : bool) (e : Error) : Tx unit :=
  if c then revert e else mret tt.

Definition emit (ev : Event) : Tx unit :=
  modify (set_events (fun l => l ++ [ev])).

(** [for (uint256 i = from; i < from + count; i++) body(i)] *)
Fixpoint forRange (from : nat) (count : nat) (body : nat -> Tx unit) : Tx unit :=
  match count with
  | O => mret tt
  | S count' => body from ;; forRange (S from) count' body
  end.

(** The environment of a call: [msg.sender] and [block.timestamp]. *)
Record Env : Type := mkEnv { sender : address; timestamp : N }.

(** *** Storage accessors *)

(** Reading a member of [polls[pollId]]; an index past the end panics. *)
Definition readPoll {A : Type} (pollId : N) (f : Poll -> A) : Tx A :=
  fun s => match polls s !! N.to_nat pollId with
           | Some p => Done (f p) s
           | None => Revert Panic s
           end.

(** Writing a member of [polls[pollId]]. *)
Definition writePoll (pollId : N) (f : Poll -> Poll) : Tx unit :=
  fun s => match polls s !! N.to_nat pollId with
           | Some p => Done tt (set_polls (<[N.to_nat pollId := f p]>) s)
           | None => Revert Panic s
           end.

(** [poll.tallies[i]] as an r-value. *)
Definition readTally (pollId : N) (i : nat) : Tx FHE.euint32 :=
  ts ← readPoll pollId tallies;
  match ts !! i with
  | Some t => mret t
  | None => revert Panic
  end.

(** [poll.tallies[i] = v]. *)
Definition writeTally (pollId : N) (i : nat) (v : FHE.euint32) : Tx unit :=
  ts ← readPoll pollId tallies;
  match ts !! i with
  | Some _ => writePoll pollId (set_tallies (<[i := v]> ts))
  | None => revert Panic
  end.

(** [FHE.allowThis(poll.tallies[i])]: the permission is recorded on the
    stored handle. *)
Definition allowThisTally (pollId : N) (i : nat) : Tx unit :=
  t ← readTally pollId i;
  writeTally pollId i (FHE.allowThis t).

(** [poll.options.push(o)] and [poll.tallies.push(t)]. *)
Definition push_option (o : string) (p : Poll) : Poll :=
  set_options (options p ++ [o]) p.
Definition push_tally (t : FHE.euint32) (p : Poll) : Poll :=
  set_tallies (tallies p ++ [t]) p.

Definition hasVoted (pollId : N) (user : address) (s : Storage) : bool :=
  default false (votes s !! (pollId, user)).

(** ** The contract *)

Section MetaVote.
Context `{Coprocessor}.

(** [FHE.fromExternal(encryptedChoice, inputProof)] *)
Definition fromExternal (env : Env) (encryptedChoice : N) (inputProof : bytes)
    : Tx FHE.euint32 :=
  match verifyInput (sender env) encryptedChoice inputProof with
  | Some v => mret (FHE.asEuint32 v)
  | None => revert InvalidInputProof
  end.

(** [FHE.checkSignatures(handles, abi.encode(clearTallies), proof)] *)
Definition checkSignatures (handles : list FHE.euint32) (cleartexts : list N)
    (decryptionProof : bytes) : Tx unit :=
  if verifySignatures handles cleartexts decryptionProof
  then mret tt else revert InvalidKMSSignatures.

(** The modifier [pollExists]. *)
Definition pollExists (pollId : N) : Tx unit :=
  len ← gets (fun s => N.of_nat (length (polls s)));
  revertIf (len <=? pollId) InvalidPoll.

(** The body of the loop of [createPoll]. *)
Definition createPoll_body (pollId : N) (options : list string) (i : nat)
    : Tx unit :=
  match options !! i with
  | Some o =>
      writePoll pollId (push_option o);;
      writePoll pollId (push_tally (FHE.asEuint32 0));;
      allowThisTally pollId i
  | None => revert Panic
  end.

Definition createPoll (env : Env) (title : string) (options : list string)
    (startTime endTime : N) : Tx N :=
  let len := N.of_nat (length options) in
  revertIf ((len <? 2) || (4 <? len)) InvalidOptions;;
  revertIf ((endTime <=? startTime) || (endTime <=? timestamp env))
           InvalidWindow;;
  pollId ← gets (fun s => N.of_nat (length (polls s)));
  modify (set_polls (fun l => l ++ [emptyPoll]));;
  writePoll pollId (set_title title);;
  writePoll pollId (set_startTime startTime);;
  writePoll pollId (set_endTime endTime);;
  writePoll pollId (set_creator (sender env));;
  forRange 0 (length options) (createPoll_body pollId options);;
  emit (PollCreated pollId title startTime endTime);;
  mret pollId.

(** The body of the loop of [castVote]: an encrypted equality test and
    an oblivious select, with no branch on the choice. *)
Definition castVote_body (pollId : N) (choice : FHE.euint32) (i : nat)
    : Tx unit :=
  let selected :=
    FHE.eq choice (FHE.asEuint32 (uint32 (N.of_nat i))) in
  t ← readTally pollId i;
  let incremented := FHE.add t (FHE.asEuint32 1) in
  t' ← readTally pollId i;
  writeTally pollId i (FHE.select selected incremented t');;
  allowThisTally pollId i.

Definition castVote (env : Env) (pollId : N) (encryptedChoice : N)
    (inputProof : bytes) : Tx unit :=
  pollExists pollId;;
  start ← readPoll pollId startTime;
  stop ← readPoll pollId endTime;
  revertIf ((timestamp env <? start) || (stop <=? timestamp env))
           PollNotActive;;
  fin ← readPoll pollId finalized;
  revertIf fin PollAlreadyFinalized;;
  voted ← gets (hasVoted pollId (sender env));
  revertIf voted AlreadyVoted;;
  modify (set_votes (<[(pollId, sender env) := true]>));;
  choice ← fromExternal env encryptedChoice inputProof;
  count ← readPoll pollId (fun p => length (options p));
  forRange 0 count (castVote_body pollId choice);;
  emit (VoteSubmitted pollId (sender env)).

(** The body of the loop of [finalizePoll]. *)
Definition finalizePoll_body (pollId : N) (i : nat) : Tx unit :=
  t ← readTally pollId i;
  writeTally pollId i (FHE.makePubliclyDecryptable t).

Definition finalizePoll (env : Env) (pollId : N) : Tx unit :=
  pollExists pollId;;
  stop ← readPoll pollId endTime;
  revertIf (timestamp env <? stop) PollNotFinished;;
  fin ← readPoll pollId finalized;
  revertIf fin PollAlreadyFinalized;;
  writePoll pollId (set_finalized true);;
  count ← readPoll pollId (fun p => length (tallies p));
  forRange 0 count (finalizePoll_body pollId);;
  emit (PollFinalized pollId).

(** The loop filling the memory array [handles] with
    [euint32.unwrap(poll.tallies[i])] for [i = from .. from+count-1]. *)
Fixpoint unwrapTallies (pollId : N) (from count : nat)
    : Tx (list FHE.euint32) :=
  match count with
  | O => mret []
  | S count' =>
      t ← readTally pollId from;
      rest ← unwrapTallies pollId (S from) count';
      mret (t :: rest)
  end.

Definition publishResults (env : Env) (pollId : N) (clearTallies : list N)
    (decryptionProof : bytes) : Tx unit :=
  pollExists pollId;;
  fin ← readPoll pollId finalized;
  revertIf (negb fin) PollNotFinished;;
  published ← readPoll pollId resultsPublished;
  revertIf published ResultsAlreadyPublished;;
  count ← readPoll pollId (fun p => length (options p));
  revertIf (negb (N.of_nat (length clearTallies) =? N.of_nat count))
           MismatchedResults;;
  size ← readPoll pollId (fun p => length (tallies p));
  handles ← unwrapTallies pollId 0 size;
  checkSignatures handles clearTallies decryptionProof;;
  writePoll pollId (set_publicResults clearTallies);;
  writePoll pollId (set_resultsPublished true);;
  writePoll pollId (set_publicDecryptionProof decryptionProof);;
  emit (ResultsPublished pollId clearTallies).

(** *** Read operations *)

Definition getPollCount : Tx N :=
  gets (fun s => N.of_nat (length (polls s))).

Definition getPollSummary (pollId : N)
    : Tx (string * N * N * N * bool * bool * address) :=
  pollExists pollId;;
  readPoll pollId (fun p =>
    (title p, startTime p, endTime p, N.of_nat (length (options p)),
     finalized p, resultsPublished p, creator p)).

Definition getPollOptions (pollId : N) : Tx (list string) :=
  pollExists pollId;;
  readPoll pollId options.

Definition getEncryptedTallies (pollId : N) : Tx (list FHE.euint32) :=
  pollExists pollId;;
  readPoll pollId tallies.

Definition getPublishedResults (pollId : N) : Tx (list N * bytes) :=
  pollExists pollId;;
  readPoll pollId (fun p => (publicResults p, publicDecryptionProof p)).

Definition hasUserVoted (pollId : N) (user : address) : Tx bool :=
  pollExists pollId;;
  gets (hasVoted pollId user).

(** ** Transactions

    The state-changing entry points, and the effect of submitting one of
    them: the storage written by a call that completes, the untouched
    previous storage when it reverts. *)
Inductive Call : Type :=
| CreatePoll (title : string) (options : list string) (startTime endTime : N)
| CastVote (pollId : N) (encryptedChoice : N) (inputProof : bytes)
| FinalizePoll (pollId : N)
| PublishResults (pollId : N) (clearTallies : list N)
                 (decryptionProof : bytes).

Definition exec (env : Env) (c : Call) : Tx unit :=
  match c with
  | CreatePoll t o a b => createPoll env t o a b ;; mret tt
  | CastVote p e i => castVote env p e i
  | FinalizePoll p => finalizePoll env p
  | PublishResults p r d => publishResults env p r d
  end.

Definition commit {A : Type} (o : Outcome A) (s : Storage) : Storage :=
  match o with
  | Done _ s' => s'
  | Revert _ _ => s
  end.

Definition transact (env : Env) (c : Call) (s : Storage) : Storage :=
  commit (exec env c s) s.

(** Storages reachable by any sequence of transactions, each with an
    arbitrary sender and timestamp. *)
Inductive reachable : Storage -> Prop :=
| reachable_genesis : reachable genesis
| reachable_step env c s :
    reachable s -> reachable (transact env c s).

(** Storages reachable when block timestamps never decrease:
    [chain now s] holds when [s] is reached with [now] the timestamp of
    the latest block. *)
Inductive chain : N -> Storage -> Prop :=
| chain_genesis now : chain now genesis
| chain_step now env c s :
    chain now s -> now <= timestamp env ->
    chain (timestamp env) (transact env c s).

End MetaVote.

(** ** A plaintext coprocessor

    The behaviour of the mock environment the test-suite runs against: an
    external handle hides the number it is made of and any non-empty input
    proof is valid; a decryption proof is valid when it is non-empty, every
    handle is publicly decryptable and the claimed values are the hidden
    ones. *)
Module Mock.

Definition nonEmpty (b : bytes) : bool :=
  match b with [] => false | _ => true end.

Definition sameValues (hs : list FHE.euint32) (cs : list N) : bool :=
  bool_decide (FHE.clear <$> hs = cs).

#[export] Instance coprocessor : Coprocessor := {|
  verifyInput _ handle proof :=
    if nonEmpty proof then Some (handle mod uint32_modulus) else None;
  verifySignatures hs cs proof :=
    nonEmpty proof && forallb FHE.publiclyDecryptable hs && sameValues hs cs
|}.

Definition proof : bytes := [Byte.x01].

Definition deployer : address := 100.
Definition voterA : address := 101.
Definition voterB : address := 102.

(** The first test of the suite: a three-option poll open on [12,312),
    voter A votes 1 and voter B votes 2 at time 13, the poll is finalized
    at time 313 and the decrypted tallies are published. *)
Definition sampleLabels : list string := ["Solidity"; "TypeScript"; "Rust"].

Definition sampleCreated : Storage :=
  transact (mkEnv deployer 10)
           (CreatePoll "Favorite language" sampleLabels 12 312) genesis.

Definition sampleVotedA : Storage :=
  transact (mkEnv voterA 13) (CastVote 0 1 proof) sampleCreated.

Definition sampleVoted : Storage :=
  transact (mkEnv voterB 13) (CastVote 0 2 proof) sampleVotedA.

Definition sampleFinalized : Storage :=
  transact (mkEnv deployer 313) (FinalizePoll 0) sampleVoted.

Definition samplePublished : Storage :=
  transact (mkEnv deployer 313) (PublishResults 0 [0; 1; 1] proof)
           sampleFinalized.

End Mock.

(** * Properties *)

(** ** Pure descriptions of the storage updates *)

(** The storage in which [polls[pollId]] has been replaced by [q]. *)
Definition updPoll (pollId : N) (q : Poll) (s : Storage) : Storage :=
  set_polls (<[N.to_nat pollId := q]>) s.

(** The array obtained by rewriting cells [from .. from+count-1] with [g],
    in that order. *)
Fixpoint mapRange {A : Type} (g : nat -> A -> A) (from count : nat)
    (l : list A) : list A :=
  match count with
  | O => l
  | S count' => mapRange g (S from) count' (alter (g from) from l)
  end.

(** What one pass of the voting loop stores in cell [i]. *)
Definition voteCell (choice : FHE.euint32) (i : nat) (t : FHE.euint32)
    : FHE.euint32 :=
  FHE.allowThis
    (FHE.select (FHE.eq choice (FHE.asEuint32 (uint32 (N.of_nat i))))
                (FHE.add t (FHE.asEuint32 1)) t).

Definition hidden (ts : list FHE.euint32) : list N := FHE.clear <$> ts.

Section ListFacts.
Context {A : Type}.
Implicit Types (l : list A) (g : nat -> A -> A).

Lemma length_mapRange g count : ∀ from l,
  length (mapRange g from count l) = length l.
Proof.
  induction count as [|c IH]; intros from l; simpl; [done|].
  by rewrite IH, length_alter.
Qed.

Lemma lookup_mapRange g count : ∀ from l j,
  mapRange g from count l !! j =
    if bool_decide (from ≤ j < from + count)%nat
    then g j <$> l !! j else l !! j.
Proof.
  induction count as [|c IH]; intros from l j; simpl.
  - rewrite bool_decide_eq_false_2; [done|lia].
  - rewrite IH. destruct (decide (from = j)) as [->|Hne].
    + rewrite list_lookup_alter_eq.
      rewrite bool_decide_eq_false_2 by lia.
      rewrite bool_decide_eq_true_2 by lia. done.
    + rewrite list_lookup_alter_ne by done.
      apply (f_equal (fun b : bool => if b then _ else _)).
      apply bool_decide_ext. lia.
Qed.

Lemma mapRange_all g l : mapRange g 0 (length l) l = imap g l.
Proof.
  apply list_eq; intros j. rewrite lookup_mapRange, list_lookup_imap.
  destruct (l !! j) as [x|] eqn:Hj.
  - apply lookup_lt_Some in Hj. rewrite bool_decide_eq_true_2 by lia. done.
  - by destruct (bool_decide _).
Qed.
End ListFacts.

Lemma insert_as_alter {A : Type} (f : A → A) (l : list A) i x :
  l !! i = Some x → <[i := f x]> l = alter f i l.
Proof.
  intros Hx. apply list_eq; intros j. destruct (decide (i = j)) as [->|Hne].
  - rewrite list_lookup_alter_eq, Hx.
    apply list_lookup_insert_eq. by apply lookup_lt_Some in Hx.
  - rewrite list_lookup_insert_ne by done. by rewrite list_lookup_alter_ne.
Qed.

Lemma tallies_set_tallies v p : tallies (set_tallies v p) = v.
Proof. done. Qed.

Lemma set_tallies_twice v w p :
  set_tallies v (set_tallies w p) = set_tallies v p.
Proof. done. Qed.

Lemma setter_tallies_id p : set_tallies (tallies p) p = p.
Proof. by destruct p. Qed.

Lemma updPoll_id pollId p s :
  polls s !! N.to_nat pollId = Some p → updPoll pollId p s = s.
Proof.
  intros Hp. destruct s as [ps vs es]; unfold updPoll, set_polls; simpl in *.
  by rewrite list_insert_id.
Qed.

Lemma updPoll_updPoll pollId q q' s :
  updPoll pollId q (updPoll pollId q' s) = updPoll pollId q s.
Proof.
  destruct s; unfold updPoll, set_polls; simpl.
  by rewrite list_insert_insert_eq.
Qed.

Lemma lookup_updPoll pollId q s p :
  polls s !! N.to_nat pollId = Some p →
  polls (updPoll pollId q s) !! N.to_nat pollId = Some q.
Proof.
  intros Hp. unfold updPoll, set_polls; simpl.
  apply list_lookup_insert_eq. by apply lookup_lt_Some in Hp.
Qed.

Lemma lookup_updPoll_ne pollId q s (i : nat) :
  i ≠ N.to_nat pollId →
  polls (updPoll pollId q s) !! i = polls s !! i.
Proof.
  intros Hne. unfold updPoll, set_polls; simpl.
  by apply list_lookup_insert_ne.
Qed.

Lemma length_updPoll pollId q s :
  length (polls (updPoll pollId q s)) = length (polls s).
Proof. unfold updPoll, set_polls; simpl. apply length_insert. Qed.

(** ** Running the accessors *)

Lemma bind_Done {A B : Type} (m : Tx A) (f : A → Tx B) s a s' :
  m s = Done a s' → (m ≫= f) s = f a s'.
Proof. unfold mbind, Tx_bind. by intros ->. Qed.

Lemma bind_Revert {A B : Type} (m : Tx A) (f : A → Tx B) s e s' :
  m s = Revert e s' → (m ≫= f) s = Revert e s'.
Proof. unfold mbind, Tx_bind. by intros ->. Qed.

Lemma readPoll_Some {A : Type} pollId (f : Poll → A) s p :
  polls s !! N.to_nat pollId = Some p → readPoll pollId f s = Done (f p) s.
Proof. unfold readPoll. by intros ->. Qed.

Lemma writePoll_Some pollId f s p :
  polls s !! N.to_nat pollId = Some p →
  writePoll pollId f s = Done tt (updPoll pollId (f p) s).
Proof. unfold writePoll. by intros ->. Qed.

Lemma readTally_Some pollId i s p t :
  polls s !! N.to_nat pollId = Some p → tallies p !! i = Some t →
  readTally pollId i s = Done t s.
Proof.
  intros Hp Ht. unfold readTally.
  rewrite (bind_Done _ _ _ _ _ (readPoll_Some _ _ _ _ Hp)). by rewrite Ht.
Qed.

Lemma readTally_None pollId i s p :
  polls s !! N.to_nat pollId = Some p → tallies p !! i = None →
  readTally pollId i s = Revert Panic s.
Proof.
  intros Hp Ht. unfold readTally.
  rewrite (bind_Done _ _ _ _ _ (readPoll_Some _ _ _ _ Hp)). by rewrite Ht.
Qed.

Lemma writeTally_Some pollId i v s p t :
  polls s !! N.to_nat pollId = Some p → tallies p !! i = Some t →
  writeTally pollId i v s =
    Done tt (updPoll pollId (set_tallies (<[i := v]> (tallies p)) p) s).
Proof.
  intros Hp Ht. unfold writeTally.
  rewrite (bind_Done _ _ _ _ _ (readPoll_Some _ _ _ _ Hp)). rewrite Ht.
  by apply writePoll_Some.
Qed.

Section Loops.
Variable pollId : N.
Variable g : nat → FHE.euint32 → FHE.euint32.
Variable body : nat → Tx unit.

Hypothesis body_Some : ∀ i s p t,
  polls s !! N.to_nat pollId = Some p → tallies p !! i = Some t →
  body i s =
    Done tt (updPoll pollId (set_tallies (<[i := g i t]> (tallies p)) p) s).
Hypothesis body_None : ∀ i s p,
  polls s !! N.to_nat pollId = Some p → tallies p !! i = None →
  body i s = Revert Panic s.

(** A loop that rewrites one tally per pass completes when the array is
    long enough, having rewritten exactly the cells of its range. *)
Lemma forRange_tallies_Done count : ∀ from s p,
  polls s !! N.to_nat pollId = Some p →
  (from + count ≤ length (tallies p))%nat →
  forRange from count body s =
    Done tt (updPoll pollId
               (set_tallies (mapRange g from count (tallies p)) p) s).
Proof.
  induction count as [|c IH]; intros from s p Hp Hlen; simpl.
  - by rewrite setter_tallies_id, updPoll_id.
  - destruct (lookup_lt_is_Some_2 (tallies p) from) as [t Ht]; [lia|].
    rewrite (bind_Done _ _ _ _ _ (body_Some _ _ _ _ Hp Ht)).
    rewrite (IH _ _ _ (lookup_updPoll _ _ _ _ Hp)).
    + rewrite updPoll_updPoll, tallies_set_tallies, set_tallies_twice.
      by rewrite (insert_as_alter _ _ _ _ Ht).
    + simpl. rewrite length_insert. lia.
Qed.

(** When the array is too short the loop panics. *)
Lemma forRange_tallies_Panic count : ∀ from s p,
  polls s !! N.to_nat pollId = Some p →
  (from ≤ length (tallies p) < from + count)%nat →
  ∃ s', forRange from count body s = Revert Panic s'.
Proof.
  induction count as [|c IH]; intros from s p Hp Hlen; simpl; [lia|].
  destruct (tallies p !! from) as [t|] eqn:Ht.
  - rewrite (bind_Done _ _ _ _ _ (body_Some _ _ _ _ Hp Ht)).
    apply lookup_lt_Some in Ht.
    apply (IH _ _ _ (lookup_updPoll _ _ _ _ Hp)).
    simpl. rewrite length_insert. lia.
  - rewrite (bind_Revert _ _ _ _ _ (body_None _ _ _ Hp Ht)). eauto.
Qed.
End Loops.

(** ** Closed forms of the entry points *)

(** One step of symbolic execution: expose the sequencing and rewrite the
    call at the head with its known outcome. *)
Ltac run H := unfold mbind, Tx_bind; cbv beta iota; rewrite H; cbv beta iota.

Lemma revertIf_true e s : revertIf true e s = Revert e s.
Proof. done. Qed.

Lemma revertIf_false e s : revertIf false e s = Done tt s.
Proof. done. Qed.

Lemma pollExists_Some `{Coprocessor} pollId s p :
  polls s !! N.to_nat pollId = Some p → pollExists pollId s = Done tt s.
Proof.
  intros Hp. apply lookup_lt_Some in Hp. cbv [pollExists mbind Tx_bind gets revertIf].
  destruct (N.leb_spec (N.of_nat (length (polls s))) pollId); [lia|done].
Qed.

Lemma pollExists_None `{Coprocessor} pollId s :
  polls s !! N.to_nat pollId = None →
  pollExists pollId s = Revert InvalidPoll s.
Proof.
  intros Hp. apply lookup_ge_None in Hp. cbv [pollExists mbind Tx_bind gets revertIf].
  destruct (N.leb_spec (N.of_nat (length (polls s))) pollId); [done|lia].
Qed.

Lemma pollExists_out_of_range `{Coprocessor} pollId s :
  N.of_nat (length (polls s)) <= pollId →
  polls s !! N.to_nat pollId = None.
Proof. intros Hge. apply lookup_ge_None. lia. Qed.

(** *** createPoll *)

(** The poll that [createPoll] leaves at the end of the registry. *)
Definition newPoll (env : Env) (title : string) (options : list string)
    (startTime endTime : N) : Poll :=
  mkPoll title options
         (replicate (length options) (FHE.allowThis (FHE.asEuint32 0)))
         startTime endTime (sender env) false false [] [].

Definition createPollOutcome (env : Env) (title : string)
    (options : list string) (startTime endTime : N) (s : Storage)
    : Outcome N :=
  let len := N.of_nat (length options) in
  if (len <? 2) || (4 <? len) then Revert InvalidOptions s
  else if (endTime <=? startTime) || (endTime <=? timestamp env)
  then Revert InvalidWindow s
  else Done (N.of_nat (length (polls s)))
            (set_events (λ l, l ++ [PollCreated (N.of_nat (length (polls s)))
                                                title startTime endTime])
               (set_polls (λ l, l ++ [newPoll env title options
                                              startTime endTime]) s)).

Lemma insert_snoc {A : Type} (l : list A) x y :
  <[length l := y]> (l ++ [x]) = l ++ [y].
Proof.
  replace (length l) with (length l + 0)%nat at 1 by lia.
  by rewrite insert_app_r.
Qed.

Lemma updPoll_last q q' ps vs es :
  updPoll (N.of_nat (length ps)) q (mkStorage (ps ++ [q']) vs es) =
  mkStorage (ps ++ [q]) vs es.
Proof.
  unfold updPoll, set_polls; simpl. f_equal. rewrite Nat2N.id.
  apply insert_snoc.
Qed.

Lemma lookup_last (q : Poll) ps vs es :
  polls (mkStorage (ps ++ [q]) vs es) !! N.to_nat (N.of_nat (length ps))
  = Some q.
Proof. simpl. rewrite Nat2N.id. by apply list_lookup_middle. Qed.

Section CreateLoop.
Context `{Coprocessor}.
Variable pollId : N.
Variable opts : list string.

Let body : nat → Tx unit := createPoll_body pollId opts.

Lemma createPoll_loop count : ∀ from s p,
  polls s !! N.to_nat pollId = Some p →
  length (tallies p) = from →
  (from + count ≤ length opts)%nat →
  forRange from count body s =
    Done tt (updPoll pollId
      (set_tallies
         (tallies p ++ replicate count (FHE.allowThis (FHE.asEuint32 0)))
         (set_options (options p ++ take count (drop from opts)) p)) s).
Proof.
  induction count as [|c IH]; intros from s p Hp Hlen Hle; simpl.
  - rewrite !app_nil_r. destruct p; simpl. by rewrite updPoll_id.
  - destruct (lookup_lt_is_Some_2 opts from) as [o Ho]; [lia|].
    assert (body from =
              (writePoll pollId (push_option o);;
               writePoll pollId (push_tally (FHE.asEuint32 0));;
               allowThisTally pollId from)) as ->
      by (unfold body, createPoll_body; by rewrite Ho).
    run (writePoll_Some _ (push_option o) _ _ Hp).
    pose proof (lookup_updPoll _ (push_option o p) _ _ Hp) as Hp1.
    run (writePoll_Some _ (push_tally (FHE.asEuint32 0)) _ _ Hp1).
    rewrite updPoll_updPoll.
    set (p2 := push_tally (FHE.asEuint32 0) (push_option o p)).
    pose proof (lookup_updPoll _ p2 _ _ Hp) as Hp2.
    assert (tallies p2 !! from = Some (FHE.asEuint32 0)) as Ht.
    { subst p2; simpl. by apply list_lookup_middle. }
    unfold allowThisTally. run (readTally_Some _ _ _ _ _ Hp2 Ht).
    run (writeTally_Some _ _ (FHE.allowThis (FHE.asEuint32 0)) _ _ _ Hp2 Ht).
    rewrite updPoll_updPoll.
    match goal with |- context [updPoll pollId ?q s] =>
      rewrite (IH (S from) _ q (lookup_updPoll _ q _ _ Hp)) end.
    + rewrite updPoll_updPoll. do 2 f_equal. subst p2.
      unfold set_tallies, set_options, push_tally, push_option; simpl.
      subst from. rewrite insert_snoc.
      rewrite <- !(assoc_L (++)); simpl.
      by rewrite (drop_S _ _ _ Ho).
    + subst p2; simpl. rewrite length_insert, length_app; simpl. lia.
    + lia.
Qed.
End CreateLoop.

Lemma createPoll_eq `{Coprocessor} env title options startTime endTime s :
  createPoll env title options startTime endTime s =
  createPollOutcome env title options startTime endTime s.
Proof.
  unfold createPoll, createPollOutcome. cbv zeta.
  unfold mbind at 1, Tx_bind at 1, revertIf at 1.
  destruct ((_ <? 2) || _); [done|]. cbv [mret Tx_ret].
  unfold mbind at 1, Tx_bind at 1, revertIf at 1.
  destruct ((_ <=? _) || _); [done|]. cbv [mret Tx_ret].
  destruct s as [ps vs es].
  unfold mbind, Tx_bind, gets, modify, set_polls; cbv beta; simpl polls;
    simpl votes; simpl events.
  rewrite (writePoll_Some _ _ _ _ (lookup_last _ _ _ _)), updPoll_last.
  rewrite (writePoll_Some _ _ _ _ (lookup_last _ _ _ _)), updPoll_last.
  rewrite (writePoll_Some _ _ _ _ (lookup_last _ _ _ _)), updPoll_last.
  rewrite (writePoll_Some _ _ _ _ (lookup_last _ _ _ _)), updPoll_last.
  rewrite (createPoll_loop _ options _ 0%nat _ _ (lookup_last _ _ _ _));
    [|done|simpl; lia].
  rewrite updPoll_last. unfold emit, modify, set_events; simpl.
  by rewrite firstn_all.
Qed.

(** *** castVote *)

(** The storage a completed [castVote] leaves: the receipt, every tally of
    the option range rewritten by the loop, the notification. *)
Definition castVoteStorage (env : Env) (pollId : N) (v : N) (p : Poll)
    (s : Storage) : Storage :=
  set_events (λ l, l ++ [VoteSubmitted pollId (sender env)])
    (updPoll pollId
       (set_tallies (mapRange (voteCell (FHE.asEuint32 v)) 0
                              (length (options p)) (tallies p)) p)
       (set_votes (<[(pollId, sender env) := true]>) s)).

Definition windowClosed (env : Env) (p : Poll) : bool :=
  (timestamp env <? startTime p) || (endTime p <=? timestamp env).

Lemma castVote_body_Some `{Coprocessor} pollId choice i s p t :
  polls s !! N.to_nat pollId = Some p → tallies p !! i = Some t →
  castVote_body pollId choice i s =
  Done tt (updPoll pollId
             (set_tallies (<[i := voteCell choice i t]> (tallies p)) p) s).
Proof.
  intros Hp Ht. unfold castVote_body. cbv zeta.
  run (readTally_Some _ _ _ _ _ Hp Ht). rewrite (readTally_Some _ _ _ _ _ Hp Ht).
  rewrite (writeTally_Some _ _ _ _ _ _ Hp Ht).
  match goal with |- context [updPoll pollId ?q s] =>
    pose proof (lookup_updPoll _ q _ _ Hp) as Hq;
    assert (tallies q !! i =
            Some (FHE.select
                    (FHE.eq choice (FHE.asEuint32 (uint32 (N.of_nat i))))
                    (FHE.add t (FHE.asEuint32 1)) t)) as Hqt
  end.
  { simpl. apply list_lookup_insert_eq. by apply lookup_lt_Some in Ht. }
  unfold allowThisTally. run (readTally_Some _ _ _ _ _ Hq Hqt).
  rewrite (writeTally_Some _ _ _ _ _ _ Hq Hqt), updPoll_updPoll.
  rewrite tallies_set_tallies, set_tallies_twice.
  by rewrite list_insert_insert_eq.
Qed.

Lemma castVote_body_None `{Coprocessor} pollId choice i s p :
  polls s !! N.to_nat pollId = Some p → tallies p !! i = None →
  castVote_body pollId choice i s = Revert Panic s.
Proof.
  intros Hp Ht. unfold castVote_body. cbv zeta.
  by run (readTally_None _ _ _ _ Hp Ht).
Qed.

(** Every way a call of [castVote] can go, in the order of its checks. *)
Lemma castVote_run `{Coprocessor} env pollId encryptedChoice inputProof s :
  match polls s !! N.to_nat pollId with
  | None =>
      castVote env pollId encryptedChoice inputProof s = Revert InvalidPoll s
  | Some p =>
      if windowClosed env p then
        castVote env pollId encryptedChoice inputProof s
        = Revert PollNotActive s
      else if finalized p then
        castVote env pollId encryptedChoice inputProof s
        = Revert PollAlreadyFinalized s
      else if hasVoted pollId (sender env) s then
        castVote env pollId encryptedChoice inputProof s
        = Revert AlreadyVoted s
      else
        match verifyInput (sender env) encryptedChoice inputProof with
        | None =>
            castVote env pollId encryptedChoice inputProof s
            = Revert InvalidInputProof
                (set_votes (<[(pollId, sender env) := true]>) s)
        | Some v =>
            if bool_decide (length (options p) ≤ length (tallies p))%nat
            then castVote env pollId encryptedChoice inputProof s
                 = Done tt (castVoteStorage env pollId v p s)
            else ∃ s', castVote env pollId encryptedChoice inputProof s
                       = Revert Panic s'
        end
  end.
Proof.
  destruct (polls s !! N.to_nat pollId) as [p|] eqn:Hp; unfold castVote.
  2:{ by rewrite (bind_Revert _ _ _ _ _ (pollExists_None _ _ Hp)). }
  run (pollExists_Some _ _ _ Hp).
  run (readPoll_Some _ startTime _ _ Hp). run (readPoll_Some _ endTime _ _ Hp).
  unfold windowClosed.
  destruct (_ || _); [done|]. run revertIf_false.
  run (readPoll_Some _ finalized _ _ Hp).
  destruct (finalized p); [done|]. run revertIf_false.
  unfold gets. cbv beta iota.
  destruct (hasVoted pollId (sender env) s); [by rewrite revertIf_true|].
  run revertIf_false.
  unfold modify, fromExternal. cbv beta iota.
  destruct (verifyInput _ _ _) as [v|]; [|done]. cbv [mret Tx_ret].
  set (s1 := set_votes _ s).
  assert (polls s1 !! N.to_nat pollId = Some p) as Hp1 by done.
  run (readPoll_Some _ (λ p, length (options p)) _ _ Hp1).
  case_bool_decide as Hlen.
  - rewrite (forRange_tallies_Done pollId (voteCell (FHE.asEuint32 v))
               (castVote_body pollId (FHE.asEuint32 v))
               (castVote_body_Some pollId _) _ _ _ _ Hp1); [done|simpl; lia].
  - destruct (forRange_tallies_Panic pollId (voteCell (FHE.asEuint32 v))
               (castVote_body pollId (FHE.asEuint32 v))
               (castVote_body_Some pollId _) (castVote_body_None pollId _)
               (length (options p)) 0%nat _ _ Hp1) as [s' Hs'];
      [simpl; lia|]. rewrite Hs'. eauto.
Qed.

(** *** finalizePoll *)

Definition finalizedPoll (p : Poll) : Poll :=
  set_tallies (FHE.makePubliclyDecryptable <$> tallies p)
              (set_finalized true p).

Definition finalizePollOutcome (env : Env) (pollId : N) (s : Storage)
    : Outcome unit :=
  match polls s !! N.to_nat pollId with
  | None => Revert InvalidPoll s
  | Some p =>
      if timestamp env <? endTime p then Revert PollNotFinished s
      else if finalized p then Revert PollAlreadyFinalized s
      else Done tt (set_events (λ l, l ++ [PollFinalized pollId])
                      (updPoll pollId (finalizedPoll p) s))
  end.

Lemma finalizePoll_body_Some `{Coprocessor} pollId i s p t :
  polls s !! N.to_nat pollId = Some p → tallies p !! i = Some t →
  finalizePoll_body pollId i s =
  Done tt (updPoll pollId
             (set_tallies
                (<[i := FHE.makePubliclyDecryptable t]> (tallies p)) p) s).
Proof.
  intros Hp Ht. unfold finalizePoll_body.
  run (readTally_Some _ _ _ _ _ Hp Ht).
  by rewrite (writeTally_Some _ _ _ _ _ _ Hp Ht).
Qed.

Lemma finalizePoll_eq `{Coprocessor} env pollId s :
  finalizePoll env pollId s = finalizePollOutcome env pollId s.
Proof.
  unfold finalizePollOutcome.
  destruct (polls s !! N.to_nat pollId) as [p|] eqn:Hp; unfold finalizePoll.
  2:{ by rewrite (bind_Revert _ _ _ _ _ (pollExists_None _ _ Hp)). }
  run (pollExists_Some _ _ _ Hp). run (readPoll_Some _ endTime _ _ Hp).
  destruct (_ <? _); [done|]. run revertIf_false.
  run (readPoll_Some _ finalized _ _ Hp).
  destruct (finalized p) eqn:Hfin; [done|]. run revertIf_false.
  run (writePoll_Some _ (set_finalized true) _ _ Hp).
  pose proof (lookup_updPoll _ (set_finalized true p) _ _ Hp) as Hp1.
  run (readPoll_Some _ (λ p, length (tallies p)) _ _ Hp1).
  rewrite (forRange_tallies_Done pollId (λ _, FHE.makePubliclyDecryptable)
             (finalizePoll_body pollId)
             (finalizePoll_body_Some pollId) _ _ _ _ Hp1); [|simpl; lia].
  cbv beta iota. rewrite updPoll_updPoll. unfold emit, modify. do 3 f_equal.
  unfold finalizedPoll. f_equal.
  change (tallies (set_finalized true p)) with (tallies p).
  rewrite mapRange_all. apply imap_const.
Qed.

(** *** publishResults *)

Definition publishedPoll (clearTallies : list N) (decryptionProof : bytes)
    (p : Poll) : Poll :=
  set_publicDecryptionProof decryptionProof
    (set_resultsPublished true (set_publicResults clearTallies p)).

Definition publishResultsOutcome `{Coprocessor} (env : Env) (pollId : N)
    (clearTallies : list N) (decryptionProof : bytes) (s : Storage)
    : Outcome unit :=
  match polls s !! N.to_nat pollId with
  | None => Revert InvalidPoll s
  | Some p =>
      if negb (finalized p) then Revert PollNotFinished s
      else if resultsPublished p then Revert ResultsAlreadyPublished s
      else if negb (N.of_nat (length clearTallies)
                    =? N.of_nat (length (options p)))
      then Revert MismatchedResults s
      else if verifySignatures (tallies p) clearTallies decryptionProof
      then Done tt (set_events
                      (λ l, l ++ [ResultsPublished pollId clearTallies])
                      (updPoll pollId
                         (publishedPoll clearTallies decryptionProof p) s))
      else Revert InvalidKMSSignatures s
  end.

Lemma unwrapTallies_eq `{Coprocessor} pollId s p count : ∀ from,
  polls s !! N.to_nat pollId = Some p →
  (from + count ≤ length (tallies p))%nat →
  unwrapTallies pollId from count s
  = Done (take count (drop from (tallies p))) s.
Proof.
  induction count as [|c IH]; intros from Hp Hlen; simpl; [done|].
  destruct (lookup_lt_is_Some_2 (tallies p) from) as [t Ht]; [lia|].
  run (readTally_Some _ _ _ _ _ Hp Ht). rewrite IH by (done || lia).
  cbv beta iota. by rewrite (drop_S _ _ _ Ht).
Qed.

Lemma publishResults_eq `{Coprocessor} env pollId clearTallies proof s :
  publishResults env pollId clearTallies proof s =
  publishResultsOutcome env pollId clearTallies proof s.
Proof.
  unfold publishResultsOutcome.
  destruct (polls s !! N.to_nat pollId) as [p|] eqn:Hp; unfold publishResults.
  2:{ by rewrite (bind_Revert _ _ _ _ _ (pollExists_None _ _ Hp)). }
  run (pollExists_Some _ _ _ Hp). run (readPoll_Some _ finalized _ _ Hp).
  destruct (negb _); [done|]. run revertIf_false.
  run (readPoll_Some _ resultsPublished _ _ Hp).
  destruct (resultsPublished p); [done|]. run revertIf_false.
  run (readPoll_Some _ (λ p, length (options p)) _ _ Hp).
  destruct (negb _); [done|]. run revertIf_false.
  run (readPoll_Some _ (λ p, length (tallies p)) _ _ Hp).
  rewrite (unwrapTallies_eq _ _ _ _ 0%nat Hp) by (simpl; lia).
  cbv beta iota. rewrite drop_0, firstn_all. unfold checkSignatures.
  destruct (verifySignatures _ _ _); [|done]. cbv [mret Tx_ret].
  run (writePoll_Some _ (set_publicResults clearTallies) _ _ Hp).
  match goal with |- context [writePoll _ _ (updPoll pollId ?q s)] =>
    run (writePoll_Some _ (set_resultsPublished true) _ _
           (lookup_updPoll _ q _ _ Hp)) end.
  rewrite updPoll_updPoll.
  match goal with |- context [writePoll _ _ (updPoll pollId ?q s)] =>
    run (writePoll_Some _ (set_publicDecryptionProof proof) _ _
           (lookup_updPoll _ q _ _ Hp)) end.
  by rewrite updPoll_updPoll.
Qed.

(** ** The transitions of the poll state machine

    [effect env s c s'] describes the completed calls: the conditions under
    which call [c] goes through on storage [s] and the storage [s'] it
    leaves.  [exec_effect] shows that the contract completes exactly in
    these cases. *)
Section Transitions.
Context `{Coprocessor}.

Inductive effect (env : Env) (s : Storage) : Call → Storage → Prop :=
| effect_create t o a b :
    (2 ≤ length o ≤ 4)%nat → a < b → timestamp env < b →
    effect env s (CreatePoll t o a b)
      (set_events (λ l, l ++ [PollCreated (N.of_nat (length (polls s)))
                                          t a b])
         (set_polls (λ l, l ++ [newPoll env t o a b]) s))
| effect_vote pollId e i p v :
    polls s !! N.to_nat pollId = Some p →
    startTime p <= timestamp env < endTime p →
    finalized p = false →
    hasVoted pollId (sender env) s = false →
    verifyInput (sender env) e i = Some v →
    (length (options p) ≤ length (tallies p))%nat →
    effect env s (CastVote pollId e i) (castVoteStorage env pollId v p s)
| effect_finalize pollId p :
    polls s !! N.to_nat pollId = Some p →
    endTime p <= timestamp env →
    finalized p = false →
    effect env s (FinalizePoll pollId)
      (set_events (λ l, l ++ [PollFinalized pollId])
         (updPoll pollId (finalizedPoll p) s))
| effect_publish pollId r d p :
    polls s !! N.to_nat pollId = Some p →
    finalized p = true →
    resultsPublished p = false →
    length r = length (options p) →
    verifySignatures (tallies p) r d = true →
    effect env s (PublishResults pollId r d)
      (set_events (λ l, l ++ [ResultsPublished pollId r])
         (updPoll pollId (publishedPoll r d p) s)).

Lemma windowClosed_false env p :
  windowClosed env p = false ↔ startTime p <= timestamp env < endTime p.
Proof.
  unfold windowClosed. rewrite orb_false_iff, N.ltb_ge, N.leb_gt. done.
Qed.

Lemma windowClosed_true env p :
  windowClosed env p = true ↔
  timestamp env < startTime p ∨ endTime p <= timestamp env.
Proof.
  unfold windowClosed. rewrite orb_true_iff, N.ltb_lt, N.leb_le. done.
Qed.

Lemma exec_effect env c s s' :
  exec env c s = Done tt s' ↔ effect env s c s'.
Proof.
  split.
  - destruct c as [t o a b|pollId e i|pollId|pollId r d]; simpl.
    + unfold mbind, Tx_bind. rewrite createPoll_eq. unfold createPollOutcome.
      cbv zeta.
      destruct (_ || _) eqn:Hopts; [done|].
      destruct ((b <=? a) || _) eqn:Hwin; [done|].
      apply orb_false_iff in Hopts as [?%N.ltb_ge ?%N.ltb_ge].
      apply orb_false_iff in Hwin as [?%N.leb_gt ?%N.leb_gt].
      intros [= <-]. constructor; lia.
    + pose proof (castVote_run env pollId e i s) as Hrun.
      destruct (polls s !! N.to_nat pollId) as [p|] eqn:Hp;
        [|by rewrite Hrun].
      destruct (windowClosed env p) eqn:Hwin; [by rewrite Hrun|].
      destruct (finalized p) eqn:Hfin; [by rewrite Hrun|].
      destruct (hasVoted _ _ _) eqn:Hvoted; [by rewrite Hrun|].
      destruct (verifyInput _ _ _) as [v|] eqn:Hv; [|by rewrite Hrun].
      case_bool_decide as Hlen; [|by destruct Hrun as [? ->]].
      rewrite Hrun. intros [= <-].
      apply windowClosed_false in Hwin. by econstructor.
    + rewrite finalizePoll_eq. unfold finalizePollOutcome.
      destruct (polls s !! N.to_nat pollId) as [p|] eqn:Hp; [|done].
      destruct (_ <? _) eqn:Hend; [done|].
      destruct (finalized p) eqn:Hfin; [done|].
      apply N.ltb_ge in Hend. intros [= <-]. by econstructor.
    + rewrite publishResults_eq. unfold publishResultsOutcome.
      destruct (polls s !! N.to_nat pollId) as [p|] eqn:Hp; [|done].
      destruct (finalized p) eqn:Hfin; [|done]. simpl.
      destruct (resultsPublished p) eqn:Hpub; [done|].
      destruct (_ =? _) eqn:Hlen; [|done]. simpl.
      destruct (verifySignatures _ _ _) eqn:Hsig; [|done].
      apply N.eqb_eq in Hlen. intros [= <-]. econstructor; eauto. lia.
  - intros [t o a b Ho Hab Hb|pollId e i p v Hp Hwin Hfin Hvoted Hv Hlen
           |pollId p Hp Hend Hfin|pollId r d p Hp Hfin Hpub Hlen Hsig];
      simpl.
    + unfold mbind, Tx_bind. rewrite createPoll_eq. unfold createPollOutcome.
      cbv zeta.
      rewrite (proj2 (orb_false_iff _ _)); [|split; apply N.ltb_ge; lia].
      rewrite (proj2 (orb_false_iff _ _)); [done|].
      split; apply N.leb_gt; lia.
    + pose proof (castVote_run env pollId e i s) as Hrun.
      rewrite Hp, (proj2 (windowClosed_false _ _) Hwin), Hfin, Hvoted, Hv
        in Hrun.
      by rewrite bool_decide_eq_true_2 in Hrun.
    + rewrite finalizePoll_eq. unfold finalizePollOutcome.
      rewrite Hp, (proj2 (N.ltb_ge _ _) Hend), Hfin. done.
    + rewrite publishResults_eq. unfold publishResultsOutcome.
      rewrite Hp, Hfin, Hpub, Hlen, N.eqb_refl, Hsig. done.
Qed.

(** A transaction either leaves the storage as it was or performs one of
    the transitions. *)
Lemma transact_effect env c s :
  transact env c s = s ∨ effect env s c (transact env c s).
Proof.
  unfold transact, commit. destruct (exec env c s) as [[] s'|e s'] eqn:He.
  - right. by apply exec_effect.
  - by left.
Qed.
End Transitions.

(** ** Invariants of reachable storages *)

Definition wfTally (t : FHE.euint32) : Prop :=
  FHE.clear t < uint32_modulus ∧ FHE.allowedThis t = true.

Record wfPoll (p : Poll) : Prop := {
  wf_options : (2 ≤ length (options p) ≤ 4)%nat;
  wf_tallies : length (tallies p) = length (options p);
  wf_window : startTime p < endTime p;
  wf_cells : Forall wfTally (tallies p);
  wf_decryptable :
    finalized p = true →
    Forall (λ t, FHE.publiclyDecryptable t = true) (tallies p);
  wf_published : resultsPublished p = true → finalized p = true;
  wf_results :
    resultsPublished p = true →
    length (publicResults p) = length (options p);
  wf_unpublished :
    resultsPublished p = false →
    publicResults p = [] ∧ publicDecryptionProof p = []
}.

Lemma uint32_modulus_pos : uint32_modulus ≠ 0.
Proof. done. Qed.

Lemma asEuint32_bound v : FHE.clear (FHE.asEuint32 v) < uint32_modulus.
Proof. apply N.mod_upper_bound, uint32_modulus_pos. Qed.

Lemma voteCell_wf choice i t : wfTally t → wfTally (voteCell choice i t).
Proof.
  intros [Hlt _]. split; [|done]. unfold voteCell; simpl.
  destruct (_ =? _); [|done]. apply N.mod_upper_bound, uint32_modulus_pos.
Qed.

Lemma Forall_mapRange {A : Type} (P : A → Prop) (g : nat → A → A) l :
  (∀ i x, P x → P (g i x)) → ∀ count from,
  Forall P l → Forall P (mapRange g from count l).
Proof.
  intros Hg count from Hl. apply Forall_lookup. intros j x.
  rewrite lookup_mapRange. rewrite Forall_lookup in Hl.
  destruct (bool_decide _).
  - destruct (l !! j) as [y|] eqn:Hy; [|done]. intros [= <-]. eauto.
  - eauto.
Qed.

Section Invariants.
Context `{Coprocessor}.

Lemma newPoll_wf env t o a b :
  (2 ≤ length o ≤ 4)%nat → a < b → wfPoll (newPoll env t o a b).
Proof.
  intros Ho Hab. split; simpl; try done.
  - by rewrite length_replicate.
  - apply Forall_replicate. split; [|done].
    apply (asEuint32_bound 0).
Qed.

Lemma votedPoll_wf choice p :
  wfPoll p → finalized p = false →
  wfPoll (set_tallies
            (mapRange (voteCell choice) 0 (length (options p)) (tallies p))
            p).
Proof.
  intros [] Hfin. split; simpl; try done.
  - by rewrite length_mapRange.
  - apply Forall_mapRange; [|done]. intros. by apply voteCell_wf.
  - by rewrite Hfin.
Qed.

Lemma finalizedPoll_wf p :
  wfPoll p → finalized p = false → wfPoll (finalizedPoll p).
Proof.
  intros [] Hfin. split; simpl; try done.
  - by rewrite length_fmap.
  - apply Forall_fmap. eapply Forall_impl; [done|]. by intros t [].
  - intros _. apply Forall_fmap. by apply Forall_true.
Qed.

Lemma publishedPoll_wf r d p :
  wfPoll p → finalized p = true → length r = length (options p) →
  wfPoll (publishedPoll r d p).
Proof. intros [] Hfin Hlen. by split. Qed.

Lemma wf_updPoll pollId q s :
  Forall wfPoll (polls s) → wfPoll q →
  Forall wfPoll (polls (updPoll pollId q s)).
Proof. intros Hs Hq. by apply Forall_insert. Qed.

Lemma effect_wf env s c s' :
  effect env s c s' → Forall wfPoll (polls s) → Forall wfPoll (polls s').
Proof.
  intros [t o a b Ho Hab Hb|pollId e i p v Hp Hwin Hfin Hvoted Hv Hlen
         |pollId p Hp Hend Hfin|pollId r d p Hp Hfin Hpub Hlen Hsig] Hs.
  - simpl. apply Forall_app. split; [done|].
    apply Forall_singleton. by apply newPoll_wf.
  - apply wf_updPoll; [done|]. apply votedPoll_wf; [|done].
    by eapply Forall_lookup_1 in Hs.
  - apply wf_updPoll; [done|]. apply finalizedPoll_wf; [|done].
    by eapply Forall_lookup_1 in Hs.
  - apply wf_updPoll; [done|]. apply publishedPoll_wf; [|done..].
    by eapply Forall_lookup_1 in Hs.
Qed.

Lemma transact_wf env c s :
  Forall wfPoll (polls s) → Forall wfPoll (polls (transact env c s)).
Proof.
  intros Hs. destruct (transact_effect env c s) as [->|He]; [done|].
  by eapply effect_wf.
Qed.

Lemma reachable_wf s : reachable s → Forall wfPoll (polls s).
Proof.
  induction 1 as [|env c s _ IH]; [by constructor|]. by apply transact_wf.
Qed.

Lemma chain_reachable now s : chain now s → reachable s.
Proof. induction 1; by constructor. Qed.

Lemma reachable_lookup_wf s i p :
  reachable s → polls s !! i = Some p → wfPoll p.
Proof.
  intros Hs Hp. apply reachable_wf in Hs. by eapply Forall_lookup_1 in Hs.
Qed.

(** With non-decreasing timestamps a finalized poll is always past its
    end time. *)
Definition closedPolls (now : N) (s : Storage) : Prop :=
  Forall (λ p, finalized p = true → endTime p <= now) (polls s).

Lemma closedPolls_mono now now' s :
  now <= now' → closedPolls now s → closedPolls now' s.
Proof.
  intros Hle Hs. eapply Forall_impl; [exact Hs|]. intros p Hp Hfin.
  specialize (Hp Hfin). lia.
Qed.

Lemma effect_closedPolls env s c s' :
  effect env s c s' → closedPolls (timestamp env) s →
  closedPolls (timestamp env) s'.
Proof.
  intros [t o a b Ho Hab Hb|pollId e i p v Hp Hwin Hfin Hvoted Hv Hlen
         |pollId p Hp Hend Hfin|pollId r d p Hp Hfin Hpub Hlen Hsig] Hs.
  - simpl. apply Forall_app. split; [done|]. by apply Forall_singleton.
  - apply Forall_insert; [done|]. simpl. by rewrite Hfin.
  - apply Forall_insert; [done|]. done.
  - apply Forall_insert; [done|]. simpl. intros _.
    eapply Forall_lookup_1 in Hs; [|done]. by apply Hs.
Qed.

Lemma chain_closedPolls now s : chain now s → closedPolls now s.
Proof.
  induction 1 as [now|now env c s _ IH Hle]; [by constructor|].
  apply (closedPolls_mono _ _ _ Hle) in IH.
  destruct (transact_effect env c s) as [->|He]; [done|].
  by eapply effect_closedPolls.
Qed.
End Invariants.

(** ** What later transactions preserve *)

(** [p'] is a later version of poll [p]: the creation-time members are the
    same and the two flags have not been lowered. *)
Record pollGrows (p p' : Poll) : Prop := {
  grows_title : title p' = title p;
  grows_options : options p' = options p;
  grows_window : startTime p' = startTime p ∧ endTime p' = endTime p;
  grows_creator : creator p' = creator p;
  grows_finalized : finalized p = true → finalized p' = true;
  grows_published : resultsPublished p = true → resultsPublished p' = true
}.

Lemma pollGrows_refl p : pollGrows p p.
Proof. by split. Qed.

Lemma pollGrows_trans p q r : pollGrows p q → pollGrows q r → pollGrows p r.
Proof.
  intros [] []. split; try congruence; try tauto.
  destruct grows_window0, grows_window1. split; congruence.
Qed.

Lemma hasVoted_insert pollId user pollId' user' s :
  hasVoted pollId' user' (set_votes (<[(pollId, user) := true]>) s) =
  if decide ((pollId, user) = (pollId', user')) then true
  else hasVoted pollId' user' s.
Proof.
  unfold hasVoted, set_votes; simpl. rewrite lookup_insert.
  by case_decide.
Qed.

Section Evolution.
Context `{Coprocessor}.

(** [reaches s s']: storage [s'] is obtained from [s] by a sequence of
    transactions. *)
Inductive reaches (s : Storage) : Storage → Prop :=
| reaches_here : reaches s s
| reaches_later env c s' : reaches s s' → reaches s (transact env c s').

Lemma effect_polls env s c s' (i : nat) p :
  effect env s c s' → polls s !! i = Some p →
  ∃ p', polls s' !! i = Some p' ∧ pollGrows p p'.
Proof.
  intros [t o a b Ho Hab Hb|pollId e j q v Hq Hwin Hfin Hvoted Hv Hlen
         |pollId q Hq Hend Hfin|pollId r d q Hq Hfin Hpub Hlen Hsig] Hp.
  - exists p. split; [|apply pollGrows_refl]. simpl.
    by apply lookup_app_l_Some.
  - destruct (decide (i = N.to_nat pollId)) as [->|Hne].
    + eexists. split; [by eapply lookup_updPoll|].
      replace q with p by congruence. by split.
    + exists p. split; [|apply pollGrows_refl].
      simpl. by rewrite list_lookup_insert_ne.
  - destruct (decide (i = N.to_nat pollId)) as [->|Hne].
    + eexists. split; [by eapply lookup_updPoll|].
      replace q with p by congruence. by split.
    + exists p. split; [|apply pollGrows_refl].
      simpl. by rewrite list_lookup_insert_ne.
  - destruct (decide (i = N.to_nat pollId)) as [->|Hne].
    + eexists. split; [by eapply lookup_updPoll|].
      replace q with p by congruence. by split.
    + exists p. split; [|apply pollGrows_refl].
      simpl. by rewrite list_lookup_insert_ne.
Qed.

Lemma transact_polls env c s (i : nat) p :
  polls s !! i = Some p →
  ∃ p', polls (transact env c s) !! i = Some p' ∧ pollGrows p p'.
Proof.
  intros Hp. destruct (transact_effect env c s) as [->|He].
  - exists p. split; [done|apply pollGrows_refl].
  - by eapply effect_polls.
Qed.

Lemma reaches_polls s s' (i : nat) p :
  reaches s s' → polls s !! i = Some p →
  ∃ p', polls s' !! i = Some p' ∧ pollGrows p p'.
Proof.
  induction 1 as [|env c s' _ IH]; intros Hp.
  - exists p. split; [done|apply pollGrows_refl].
  - destruct (IH Hp) as (q & Hq & Hpq).
    destruct (transact_polls env c s' i q Hq) as (r & Hr & Hqr).
    exists r. split; [done|]. by eapply pollGrows_trans.
Qed.

Lemma effect_receipts env s c s' pollId user :
  effect env s c s' → hasVoted pollId user s = true →
  hasVoted pollId user s' = true.
Proof.
  intros [t o a b Ho Hab Hb|pollId' e j q v Hq Hwin Hfin Hvoted Hv Hlen
         |pollId' q Hq Hend Hfin|pollId' r d q Hq Hfin Hpub Hlen Hsig] Hp;
    try done.
  unfold castVoteStorage.
  change (hasVoted pollId user
            (set_votes (<[(pollId', sender env) := true]>) s) = true).
  rewrite hasVoted_insert. by case_decide.
Qed.

Lemma reaches_receipts s s' pollId user :
  reaches s s' → hasVoted pollId user s = true →
  hasVoted pollId user s' = true.
Proof.
  induction 1 as [|env c s' _ IH]; intros Hv; [done|].
  destruct (transact_effect env c s') as [->|He]; [by apply IH|].
  eapply effect_receipts; [done|]. by apply IH.
Qed.

Lemma reaches_reachable s s' : reachable s → reaches s s' → reachable s'.
Proof. induction 2; [done|]. by constructor. Qed.
End Evolution.


(** * The claims *)

(** Closed examples are evaluated with the plaintext coprocessor. *)
#[local] Existing Instance Mock.coprocessor.

(** ** Poll creation *)

Lemma optionsOutOfRange_true (n : nat) :
  (n < 2 ∨ 4 < n)%nat →
  (N.of_nat n <? 2) || (4 <? N.of_nat n) = true.
Proof.
  intros Hn. apply orb_true_iff. rewrite !N.ltb_lt. lia.
Qed.

Lemma optionsOutOfRange_false (n : nat) :
  (2 ≤ n ≤ 4)%nat →
  (N.of_nat n <? 2) || (4 <? N.of_nat n) = false.
Proof.
  intros Hn. apply orb_false_iff. rewrite !N.ltb_ge. lia.
Qed.

Lemma transact_Revert `{Coprocessor} env c s e s' :
  exec env c s = Revert e s' → transact env c s = s.
Proof. unfold transact. by intros ->. Qed.

Lemma transact_Done `{Coprocessor} env c s s' :
  exec env c s = Done tt s' → transact env c s = s'.
Proof. unfold transact. by intros ->. Qed.

(** C5. [createPoll] with 2 to 4 options, [startTime < endTime] and
    [endTime] strictly in the future completes: it returns the poll count
    before the call (so [0] on the empty registry) and appends one poll
    whose [tallies] holds one counter per option, each hiding zero.  With
    an option count outside [2,4] it reverts with [InvalidOptions]; with
    [startTime >= endTime] or [endTime <= block.timestamp] it reverts with
    [InvalidWindow] (after the option-count check, which comes first in the
    code).  A reverted call has written nothing. *)
Theorem createPoll_spec `{Coprocessor} env title labels startTime endTime s :
  let n := length labels in
  let pollId := N.of_nat (length (polls s)) in
  ((2 ≤ n ≤ 4)%nat → startTime < endTime → timestamp env < endTime →
   ∃ s' p,
     createPoll env title labels startTime endTime s = Done pollId s' ∧
     polls s' = polls s ++ [p] ∧
     votes s' = votes s ∧
     options p = labels ∧
     length (tallies p) = length (options p) ∧
     hidden (tallies p) = replicate n 0 ∧
     (polls s = [] → pollId = 0)) ∧
  ((n < 2 ∨ 4 < n)%nat →
   createPoll env title labels startTime endTime s
   = Revert InvalidOptions s ∧
   transact env (CreatePoll title labels startTime endTime) s = s) ∧
  (endTime <= startTime ∨ endTime <= timestamp env →
   createPoll env title labels startTime endTime s
   = Revert (if bool_decide (2 ≤ n ≤ 4)%nat
             then InvalidWindow else InvalidOptions) s ∧
   transact env (CreatePoll title labels startTime endTime) s = s).
Proof.
  cbv zeta. split; [|split].
  - intros Hn Hse Hnow. rewrite createPoll_eq. unfold createPollOutcome.
    cbv zeta. rewrite (optionsOutOfRange_false _ Hn).
    rewrite (proj2 (orb_false_iff _ _)) by (split; apply N.leb_gt; lia).
    eexists _, _. split; [reflexivity|]. simpl.
    split_and!; try done; simpl.
    + by rewrite length_replicate.
    + unfold hidden. by rewrite fmap_replicate.
    + by intros ->.
  - intros Hn.
    assert (createPoll env title labels startTime endTime s
            = Revert InvalidOptions s) as Hrun.
    { rewrite createPoll_eq. unfold createPollOutcome. cbv zeta.
      by rewrite (optionsOutOfRange_true _ Hn). }
    split; [done|]. eapply transact_Revert. simpl.
    by rewrite (bind_Revert _ _ _ _ _ Hrun).
  - intros Hwin.
    assert (createPoll env title labels startTime endTime s
            = Revert (if bool_decide (2 ≤ length labels ≤ 4)%nat
                      then InvalidWindow else InvalidOptions) s) as Hrun.
    { rewrite createPoll_eq. unfold createPollOutcome. cbv zeta.
      case_bool_decide as Hn.
      - rewrite (optionsOutOfRange_false _ Hn).
        rewrite (proj2 (orb_true_iff _ _)); [done|].
        rewrite !N.leb_le. done.
      - rewrite optionsOutOfRange_true; [done|lia]. }
    split; [done|]. eapply transact_Revert. simpl.
    by rewrite (bind_Revert _ _ _ _ _ Hrun).
Qed.

Lemma createPoll_spec_witness :
  (∃ s' p,
     createPoll (mkEnv Mock.deployer 10) "Favorite language"
                ["Solidity"; "TypeScript"; "Rust"] 12 312 genesis
     = Done 0 s' ∧
     polls s' = [p] ∧ hidden (tallies p) = [0; 0; 0]) ∧
  createPoll (mkEnv Mock.deployer 10) "One option" ["only"] 12 312 genesis
  = Revert InvalidOptions genesis ∧
  createPoll (mkEnv Mock.deployer 10) "Empty window" ["yes"; "no"] 12 12
             genesis
  = Revert InvalidWindow genesis.
Proof.
  split; [|split].
  - destruct (proj1 (createPoll_spec (H := Mock.coprocessor)
                       (mkEnv Mock.deployer 10) "Favorite language"
                       ["Solidity"; "TypeScript"; "Rust"] 12 312 genesis))
      as (s' & p & Hrun & Hpolls & _ & _ & _ & Hzero & _).
    + simpl; lia.
    + lia.
    + simpl; lia.
    + exists s', p. split; [exact Hrun|]. split; [exact Hpolls|exact Hzero].
  - apply (proj1 (proj2 (createPoll_spec (H := Mock.coprocessor)
                           (mkEnv Mock.deployer 10) "One option" ["only"]
                           12 312 genesis))).
    left. simpl. lia.
  - apply (proj2 (proj2 (createPoll_spec (H := Mock.coprocessor)
                           (mkEnv Mock.deployer 10) "Empty window"
                           ["yes"; "no"] 12 12 genesis))).
    left. lia.
Defined.

(** ** Vote casting: the failures *)

Lemma castVote_AlreadyVoted `{Coprocessor} env pollId e i s p :
  polls s !! N.to_nat pollId = Some p →
  startTime p <= timestamp env < endTime p →
  finalized p = false →
  hasVoted pollId (sender env) s = true →
  castVote env pollId e i s = Revert AlreadyVoted s.
Proof.
  intros Hp Hwin%windowClosed_false Hfin Hvoted.
  pose proof (castVote_run env pollId e i s) as Hrun.
  by rewrite Hp, Hwin, Hfin, Hvoted in Hrun.
Qed.

Lemma chain_not_finalized_in_window `{Coprocessor} now s (i : nat) p ts :
  chain now s → polls s !! i = Some p → now <= ts → ts < endTime p →
  finalized p = false.
Proof.
  intros Hc Hp Hnow Hts. apply chain_closedPolls in Hc.
  eapply Forall_lookup_1 in Hc; [|done].
  destruct (finalized p); [|done]. specialize (Hc eq_refl). lia.
Qed.

(** C4. [castVote] reverts, having written nothing, with [InvalidPoll]
    when [pollId] is not below the poll count; otherwise with
    [PollNotActive] when the timestamp is before [startTime] or at/after
    [endTime]; otherwise with [PollAlreadyFinalized] when the poll is
    finalized; otherwise with [AlreadyVoted] when the caller holds a
    receipt for the poll.  A receipt written by a completed vote is kept by
    every later transaction, so on a chain (timestamps never decrease) a
    second vote of the same sender in the same poll, at any time inside
    the window, reverts with [AlreadyVoted]. *)
Theorem castVote_failures `{Coprocessor} env pollId encryptedChoice inputProof
    s :
  (N.of_nat (length (polls s)) <= pollId →
   castVote env pollId encryptedChoice inputProof s = Revert InvalidPoll s) ∧
  (∀ p, polls s !! N.to_nat pollId = Some p →
     (timestamp env < startTime p ∨ endTime p <= timestamp env →
      castVote env pollId encryptedChoice inputProof s
      = Revert PollNotActive s) ∧
     (startTime p <= timestamp env < endTime p → finalized p = true →
      castVote env pollId encryptedChoice inputProof s
      = Revert PollAlreadyFinalized s) ∧
     (startTime p <= timestamp env < endTime p → finalized p = false →
      hasVoted pollId (sender env) s = true →
      castVote env pollId encryptedChoice inputProof s
      = Revert AlreadyVoted s)) ∧
  (∀ e s', castVote env pollId encryptedChoice inputProof s = Revert e s' →
     transact env (CastVote pollId encryptedChoice inputProof) s = s) ∧
  (∀ s1 s2 now2 env2 e2 i2 p2,
     castVote env pollId encryptedChoice inputProof s = Done tt s1 →
     reaches s1 s2 → chain now2 s2 → now2 <= timestamp env2 →
     sender env2 = sender env →
     polls s2 !! N.to_nat pollId = Some p2 →
     startTime p2 <= timestamp env2 < endTime p2 →
     hasVoted pollId (sender env) s2 = true ∧
     castVote env2 pollId e2 i2 s2 = Revert AlreadyVoted s2).
Proof.
  pose proof (castVote_run env pollId encryptedChoice inputProof s) as Hrun.
  split_and!.
  - intros Hge. by rewrite (pollExists_out_of_range _ _ Hge) in Hrun.
  - intros p Hp. rewrite Hp in Hrun. split_and!.
    + intros Hwin%windowClosed_true. by rewrite Hwin in Hrun.
    + intros Hwin%windowClosed_false Hfin. by rewrite Hwin, Hfin in Hrun.
    + intros. by eapply castVote_AlreadyVoted.
  - intros e s' He. by eapply transact_Revert.
  - intros s1 s2 now2 env2 e2 i2 p2 Hdone Hreach Hchain Hnow Hsender Hp2 Hwin.
    assert (hasVoted pollId (sender env) s2 = true) as Hvoted.
    { eapply reaches_receipts; [done|].
      apply (exec_effect env (CastVote pollId encryptedChoice inputProof))
        in Hdone.
      inversion Hdone; subst. unfold castVoteStorage.
      change (hasVoted pollId (sender env)
                (set_votes (<[(pollId, sender env) := true]>) s) = true).
      rewrite hasVoted_insert. by case_decide. }
    split; [done|]. eapply castVote_AlreadyVoted; [done..| |congruence].
    eapply chain_not_finalized_in_window; [done..|lia].
Qed.

(** The sample run is a run of a chain. *)
Lemma sampleCreated_chain : chain 10 Mock.sampleCreated.
Proof.
  apply (chain_step 10 (mkEnv Mock.deployer 10)); [apply chain_genesis|done].
Qed.

Lemma sampleVotedA_chain : chain 13 Mock.sampleVotedA.
Proof.
  apply (chain_step 10 (mkEnv Mock.voterA 13));
    [apply sampleCreated_chain|done].
Qed.

Lemma sampleVoted_chain : chain 13 Mock.sampleVoted.
Proof.
  apply (chain_step 13 (mkEnv Mock.voterB 13));
    [apply sampleVotedA_chain|done].
Qed.

Lemma sampleFinalized_chain : chain 313 Mock.sampleFinalized.
Proof.
  apply (chain_step 13 (mkEnv Mock.deployer 313));
    [apply sampleVoted_chain|done].
Qed.

Lemma samplePublished_chain : chain 313 Mock.samplePublished.
Proof.
  apply (chain_step 313 (mkEnv Mock.deployer 313));
    [apply sampleFinalized_chain|done].
Qed.

(** The poll of the sample run after creation, after the vote of A, after
    both votes, after finalization and after publication. *)
Definition pollOf (s : Storage) : Poll := default emptyPoll (polls s !! 0%nat).

Definition samplePoll : Poll := Eval vm_compute in pollOf Mock.sampleCreated.
Definition samplePollA : Poll := Eval vm_compute in pollOf Mock.sampleVotedA.
Definition samplePollAB : Poll := Eval vm_compute in pollOf Mock.sampleVoted.
Definition samplePollFinal : Poll :=
  Eval vm_compute in pollOf Mock.sampleFinalized.
Definition samplePollPublished : Poll :=
  Eval vm_compute in pollOf Mock.samplePublished.

Lemma sampleCreated_poll :
  polls Mock.sampleCreated !! N.to_nat 0 = Some samplePoll.
Proof. vm_compute. reflexivity. Qed.

Lemma sampleVotedA_poll :
  polls Mock.sampleVotedA !! N.to_nat 0 = Some samplePollA.
Proof. vm_compute. reflexivity. Qed.

Lemma sampleVoted_poll :
  polls Mock.sampleVoted !! N.to_nat 0 = Some samplePollAB.
Proof. vm_compute. reflexivity. Qed.

Lemma sampleFinalized_poll :
  polls Mock.sampleFinalized !! N.to_nat 0 = Some samplePollFinal.
Proof. vm_compute. reflexivity. Qed.

Lemma samplePublished_poll :
  polls Mock.samplePublished !! N.to_nat 0 = Some samplePollPublished.
Proof. vm_compute. reflexivity. Qed.

(** A storage no chain reaches: the sample poll finalized inside its
    voting window (the timestamp went back). *)
Definition sampleRewound : Storage :=
  transact (mkEnv Mock.deployer 313) (FinalizePoll 0) Mock.sampleCreated.

Definition samplePollRewound : Poll := Eval vm_compute in pollOf sampleRewound.

Lemma sampleRewound_poll :
  polls sampleRewound !! N.to_nat 0 = Some samplePollRewound.
Proof. vm_compute. reflexivity. Qed.

Lemma castVote_failures_witness :
  castVote (mkEnv Mock.voterA 13) 0 1 Mock.proof genesis
  = Revert InvalidPoll genesis ∧
  castVote (mkEnv Mock.voterA 11) 0 1 Mock.proof Mock.sampleCreated
  = Revert PollNotActive Mock.sampleCreated ∧
  castVote (mkEnv Mock.voterA 312) 0 1 Mock.proof Mock.sampleCreated
  = Revert PollNotActive Mock.sampleCreated ∧
  castVote (mkEnv Mock.voterA 13) 0 1 Mock.proof sampleRewound
  = Revert PollAlreadyFinalized sampleRewound ∧
  castVote (mkEnv Mock.voterA 14) 0 2 Mock.proof Mock.sampleVotedA
  = Revert AlreadyVoted Mock.sampleVotedA ∧
  transact (mkEnv Mock.voterA 14) (CastVote 0 2 Mock.proof) Mock.sampleVotedA
  = Mock.sampleVotedA ∧
  castVote (mkEnv Mock.voterA 200) 0 0 Mock.proof Mock.sampleVoted
  = Revert AlreadyVoted Mock.sampleVoted.
Proof.
  split_and!.
  - apply (proj1 (castVote_failures (H := Mock.coprocessor)
                    (mkEnv Mock.voterA 13) 0 1 Mock.proof genesis)).
    vm_compute. discriminate.
  - apply (proj1 (proj1 (proj2 (castVote_failures (H := Mock.coprocessor)
                    (mkEnv Mock.voterA 11) 0 1 Mock.proof Mock.sampleCreated))
                    samplePoll sampleCreated_poll)).
    left. vm_compute. reflexivity.
  - apply (proj1 (proj1 (proj2 (castVote_failures (H := Mock.coprocessor)
                    (mkEnv Mock.voterA 312) 0 1 Mock.proof Mock.sampleCreated))
                    samplePoll sampleCreated_poll)).
    right. vm_compute. discriminate.
  - apply (proj1 (proj2 (proj1 (proj2 (castVote_failures
                    (H := Mock.coprocessor)
                    (mkEnv Mock.voterA 13) 0 1 Mock.proof sampleRewound))
                    samplePollRewound sampleRewound_poll))).
    + split; vm_compute; [discriminate|reflexivity].
    + reflexivity.
  - apply (proj2 (proj2 (proj1 (proj2 (castVote_failures
                    (H := Mock.coprocessor)
                    (mkEnv Mock.voterA 14) 0 2 Mock.proof Mock.sampleVotedA))
                    samplePollA sampleVotedA_poll))).
    + split; vm_compute; [discriminate|reflexivity].
    + reflexivity.
    + vm_compute; reflexivity.
  - apply (proj1 (proj2 (proj2 (castVote_failures (H := Mock.coprocessor)
                    (mkEnv Mock.voterA 14) 0 2 Mock.proof Mock.sampleVotedA)))
             AlreadyVoted Mock.sampleVotedA).
    vm_compute; reflexivity.
  - apply (proj2 (proj2 (proj2 (castVote_failures (H := Mock.coprocessor)
                    (mkEnv Mock.voterA 13) 0 1 Mock.proof Mock.sampleCreated)))
             Mock.sampleVotedA Mock.sampleVoted 13 (mkEnv Mock.voterA 200)
             0 Mock.proof samplePollAB).
    + vm_compute; reflexivity.
    + apply (reaches_later _ (mkEnv Mock.voterB 13) (CastVote 0 2 Mock.proof)).
      apply reaches_here.
    + apply sampleVoted_chain.
    + vm_compute. discriminate.
    + reflexivity.
    + apply sampleVoted_poll.
    + split; vm_compute; [discriminate|reflexivity].
Defined.

(** ** Finalization *)

Lemma finalizedPoll_hidden p :
  hidden (tallies (finalizedPoll p)) = hidden (tallies p).
Proof.
  unfold hidden, finalizedPoll; simpl. rewrite <- list_fmap_compose.
  by apply list_fmap_ext.
Qed.

Lemma finalizedPoll_decryptable p :
  Forall (λ t, FHE.publiclyDecryptable t = true) (tallies (finalizedPoll p)).
Proof. simpl. apply Forall_fmap. by apply Forall_true. Qed.

(** C6. On an existing poll [finalizePoll] reverts with [PollNotFinished]
    whenever the timestamp is below [endTime]; on a finalized poll it
    always reverts, with [PollAlreadyFinalized] once the timestamp has
    reached [endTime], which on a chain is always the case; otherwise, for
    any sender and any timestamp from [endTime] on, it sets [finalized],
    makes every tally publicly decryptable and leaves the hidden values as
    they were, after which a second call fails.  No later transaction
    lowers [finalized]. *)
Theorem finalizePoll_spec `{Coprocessor} env pollId s p :
  polls s !! N.to_nat pollId = Some p →
  (timestamp env < endTime p →
   finalizePoll env pollId s = Revert PollNotFinished s) ∧
  (finalized p = true →
   ∃ e, finalizePoll env pollId s = Revert e s ∧
        (endTime p <= timestamp env → e = PollAlreadyFinalized)) ∧
  (∀ now, chain now s → now <= timestamp env → finalized p = true →
   finalizePoll env pollId s = Revert PollAlreadyFinalized s) ∧
  (endTime p <= timestamp env → finalized p = false →
   ∃ s' p',
     (∀ anyone, finalizePoll (mkEnv anyone (timestamp env)) pollId s
                = Done tt s') ∧
     polls s' !! N.to_nat pollId = Some p' ∧
     finalized p' = true ∧
     Forall (λ t, FHE.publiclyDecryptable t = true) (tallies p') ∧
     hidden (tallies p') = hidden (tallies p) ∧
     (∀ env', ∃ e, finalizePoll env' pollId s' = Revert e s')) ∧
  (∀ s', reaches s s' → finalized p = true →
   ∃ p', polls s' !! N.to_nat pollId = Some p' ∧ finalized p' = true).
Proof.
  intros Hp.
  assert (∀ env' s1 q, polls s1 !! N.to_nat pollId = Some q →
            finalized q = true →
            ∃ e, finalizePoll env' pollId s1 = Revert e s1 ∧
                 (endTime q <= timestamp env' → e = PollAlreadyFinalized))
    as Hagain.
  { intros env' s1 q Hq Hfin. rewrite finalizePoll_eq.
    unfold finalizePollOutcome. rewrite Hq, Hfin.
    destruct (N.ltb_spec (timestamp env') (endTime q)).
    - eexists. split; [done|]. lia.
    - by eexists. }
  split_and!.
  - intros Hts. rewrite finalizePoll_eq. unfold finalizePollOutcome.
    by rewrite Hp, (proj2 (N.ltb_lt _ _) Hts).
  - intros Hfin. by apply Hagain.
  - intros now Hchain Hnow Hfin.
    destruct (Hagain env s p Hp Hfin) as (e & -> & He). rewrite He; [done|].
    apply chain_closedPolls in Hchain.
    eapply Forall_lookup_1 in Hchain; [|done]. specialize (Hchain Hfin). lia.
  - intros Hts Hfin. eexists _, (finalizedPoll p). split_and!.
    + intros anyone. rewrite finalizePoll_eq. unfold finalizePollOutcome.
      rewrite Hp, Hfin. simpl. by rewrite (proj2 (N.ltb_ge _ _) Hts).
    + simpl. apply list_lookup_insert_eq. by apply lookup_lt_Some in Hp.
    + done.
    + apply finalizedPoll_decryptable.
    + apply finalizedPoll_hidden.
    + intros env'.
      destruct (Hagain env'
                  (set_events (λ l, l ++ [PollFinalized pollId])
                     (updPoll pollId (finalizedPoll p) s))
                  (finalizedPoll p)) as (e & He & _); [|done|by eexists].
      simpl. apply list_lookup_insert_eq. by apply lookup_lt_Some in Hp.
  - intros s' Hreach Hfin.
    destruct (reaches_polls _ _ _ _ Hreach Hp) as (p' & Hp' & Hgrow).
    exists p'. split; [done|]. by apply Hgrow.
Qed.

Lemma finalizePoll_spec_witness :
  finalizePoll (mkEnv Mock.voterB 311) 0 Mock.sampleVoted
  = Revert PollNotFinished Mock.sampleVoted ∧
  finalizePoll (mkEnv Mock.voterA 400) 0 Mock.sampleFinalized
  = Revert PollAlreadyFinalized Mock.sampleFinalized ∧
  (∃ s' p',
     finalizePoll (mkEnv Mock.voterB 312) 0 Mock.sampleVoted = Done tt s' ∧
     polls s' !! 0%nat = Some p' ∧ finalized p' = true ∧
     hidden (tallies p') = [0; 1; 1]) ∧
  (∃ p', polls Mock.samplePublished !! 0%nat = Some p' ∧ finalized p' = true).
Proof.
  split_and!.
  - apply (proj1 (finalizePoll_spec (H := Mock.coprocessor)
                    (mkEnv Mock.voterB 311) 0 Mock.sampleVoted samplePollAB
                    sampleVoted_poll)).
    vm_compute. reflexivity.
  - apply (proj1 (proj2 (proj2 (finalizePoll_spec (H := Mock.coprocessor)
                    (mkEnv Mock.voterA 400) 0 Mock.sampleFinalized
                    samplePollFinal sampleFinalized_poll))) 313).
    + apply sampleFinalized_chain.
    + vm_compute. discriminate.
    + reflexivity.
  - destruct (proj1 (proj2 (proj2 (proj2 (finalizePoll_spec
                    (H := Mock.coprocessor)
                    (mkEnv Mock.voterB 312) 0 Mock.sampleVoted samplePollAB
                    sampleVoted_poll)))))
      as (s' & p' & Hrun & Hp' & Hfin & _ & Hhidden & _).
    + vm_compute. discriminate.
    + reflexivity.
    + exists s', p'. split; [apply (Hrun Mock.voterB)|].
      split; [exact Hp'|]. split; [exact Hfin|exact Hhidden].
  - apply (proj2 (proj2 (proj2 (proj2 (finalizePoll_spec
                    (H := Mock.coprocessor)
                    (mkEnv Mock.deployer 313) 0 Mock.sampleFinalized
                    samplePollFinal sampleFinalized_poll))))
             Mock.samplePublished).
    + apply (reaches_later _ (mkEnv Mock.deployer 313)
                           (PublishResults 0 [0; 1; 1] Mock.proof)).
      apply reaches_here.
    + reflexivity.
Defined.

(** ** Publication *)

Lemma publishResults_published `{Coprocessor} env pollId r d s p :
  polls s !! N.to_nat pollId = Some p →
  finalized p = true → resultsPublished p = true →
  publishResults env pollId r d s = Revert ResultsAlreadyPublished s.
Proof.
  intros Hp Hfin Hpub. rewrite publishResults_eq.
  unfold publishResultsOutcome. by rewrite Hp, Hfin, Hpub.
Qed.

(** C7. [publishResults] reverts, having written nothing, with
    [PollNotFinished] when the poll is not finalized, then with
    [ResultsAlreadyPublished] when the results are already published (so
    after a completed publication every further one fails), then with
    [MismatchedResults] when the number of clear tallies differs from the
    number of options, whatever the values are; all three come before the
    proof is looked at, so they hold for every verifier. *)
Theorem publishResults_failures `{Coprocessor} env pollId clearTallies
    decryptionProof s p :
  polls s !! N.to_nat pollId = Some p →
  (finalized p = false →
   publishResults env pollId clearTallies decryptionProof s
   = Revert PollNotFinished s) ∧
  (finalized p = true → resultsPublished p = true →
   publishResults env pollId clearTallies decryptionProof s
   = Revert ResultsAlreadyPublished s) ∧
  (reachable s → resultsPublished p = true →
   publishResults env pollId clearTallies decryptionProof s
   = Revert ResultsAlreadyPublished s) ∧
  (finalized p = true → resultsPublished p = false →
   length clearTallies ≠ length (options p) →
   publishResults env pollId clearTallies decryptionProof s
   = Revert MismatchedResults s) ∧
  (∀ s', publishResults env pollId clearTallies decryptionProof s
         = Done tt s' →
     ∀ env' r' d',
       publishResults env' pollId r' d' s'
       = Revert ResultsAlreadyPublished s').
Proof.
  intros Hp. split_and!.
  - intros Hfin. rewrite publishResults_eq. unfold publishResultsOutcome.
    by rewrite Hp, Hfin.
  - intros. by eapply publishResults_published.
  - intros Hs Hpub. eapply publishResults_published; [done| |done].
    exact (wf_published p (reachable_lookup_wf _ _ _ Hs Hp) Hpub).
  - intros Hfin Hpub Hlen. rewrite publishResults_eq.
    unfold publishResultsOutcome. rewrite Hp, Hfin, Hpub. simpl.
    destruct (N.eqb_spec (N.of_nat (length clearTallies))
                         (N.of_nat (length (options p)))); [lia|done].
  - intros s' Hdone env' r' d'.
    apply (exec_effect env (PublishResults pollId clearTallies decryptionProof))
      in Hdone.
    inversion Hdone as [| | |? ? ? q Hq Hfin Hpub Hlen Hsig]; subst.
    eapply publishResults_published;
      [simpl; apply list_lookup_insert_eq; by apply lookup_lt_Some in Hq
      |done|done].
Qed.

Lemma publishResults_failures_witness :
  publishResults (mkEnv Mock.deployer 313) 0 [0; 1; 1] Mock.proof
                 Mock.sampleVoted
  = Revert PollNotFinished Mock.sampleVoted ∧
  publishResults (mkEnv Mock.voterA 500) 0 [0; 1; 1] Mock.proof
                 Mock.samplePublished
  = Revert ResultsAlreadyPublished Mock.samplePublished ∧
  publishResults (mkEnv Mock.deployer 313) 0 [0; 1] Mock.proof
                 Mock.sampleFinalized
  = Revert MismatchedResults Mock.sampleFinalized ∧
  publishResults (mkEnv Mock.deployer 313) 0 [0; 1; 1; 0] Mock.proof
                 Mock.sampleFinalized
  = Revert MismatchedResults Mock.sampleFinalized.
Proof.
  split_and!.
  - apply (proj1 (publishResults_failures (H := Mock.coprocessor)
                    (mkEnv Mock.deployer 313) 0 [0; 1; 1] Mock.proof
                    Mock.sampleVoted samplePollAB sampleVoted_poll)).
    reflexivity.
  - apply (proj1 (proj2 (publishResults_failures (H := Mock.coprocessor)
                    (mkEnv Mock.voterA 500) 0 [0; 1; 1] Mock.proof
                    Mock.samplePublished samplePollPublished
                    samplePublished_poll))).
    + reflexivity.
    + reflexivity.
  - apply (proj1 (proj2 (proj2 (proj2 (publishResults_failures
                    (H := Mock.coprocessor)
                    (mkEnv Mock.deployer 313) 0 [0; 1] Mock.proof
                    Mock.sampleFinalized samplePollFinal
                    sampleFinalized_poll))))).
    + reflexivity.
    + reflexivity.
    + vm_compute. discriminate.
  - apply (proj1 (proj2 (proj2 (proj2 (publishResults_failures
                    (H := Mock.coprocessor)
                    (mkEnv Mock.deployer 313) 0 [0; 1; 1; 0] Mock.proof
                    Mock.sampleFinalized samplePollFinal
                    sampleFinalized_poll))))).
    + reflexivity.
    + reflexivity.
    + vm_compute. discriminate.
Defined.

(** C2. Once the three precondition checks of [publishResults] have
    passed, the verifier's answer on the poll's tally handles, the claimed
    clear values and the proof decides the call.  If the answer is no, the
    call reverts with the storage still as it was on entry (nothing had
    been written when the check ran), so the poll stays unpublished with
    empty [publicResults].  If the answer is yes, the call completes and
    stores the clear values, the proof and the flag, and emits
    [ResultsPublished].  A completed call implies the verifier said yes. *)
Theorem publishResults_fail_closed `{Coprocessor} env pollId clearTallies
    decryptionProof s p :
  polls s !! N.to_nat pollId = Some p →
  finalized p = true → resultsPublished p = false →
  length clearTallies = length (options p) →
  (verifySignatures (tallies p) clearTallies decryptionProof = false →
   publishResults env pollId clearTallies decryptionProof s
   = Revert InvalidKMSSignatures s ∧
   transact env (PublishResults pollId clearTallies decryptionProof) s = s ∧
   (reachable s →
    ∃ q, polls (transact env (PublishResults pollId clearTallies
                                             decryptionProof) s)
           !! N.to_nat pollId = Some q ∧
         resultsPublished q = false ∧ publicResults q = [])) ∧
  (verifySignatures (tallies p) clearTallies decryptionProof = true →
   ∃ s' p',
     publishResults env pollId clearTallies decryptionProof s = Done tt s' ∧
     polls s' !! N.to_nat pollId = Some p' ∧
     publicResults p' = clearTallies ∧
     publicDecryptionProof p' = decryptionProof ∧
     resultsPublished p' = true ∧
     events s' = events s ++ [ResultsPublished pollId clearTallies]) ∧
  (∀ s', publishResults env pollId clearTallies decryptionProof s
         = Done tt s' →
     verifySignatures (tallies p) clearTallies decryptionProof = true).
Proof.
  intros Hp Hfin Hpub Hlen.
  assert (publishResults env pollId clearTallies decryptionProof s =
          if verifySignatures (tallies p) clearTallies decryptionProof
          then Done tt
                 (set_events
                    (λ l, l ++ [ResultsPublished pollId clearTallies])
                    (updPoll pollId
                       (publishedPoll clearTallies decryptionProof p) s))
          else Revert InvalidKMSSignatures s) as Hrun.
  { rewrite publishResults_eq. unfold publishResultsOutcome.
    by rewrite Hp, Hfin, Hpub, Hlen, N.eqb_refl. }
  split_and!.
  - intros Hsig. rewrite Hsig in Hrun.
    assert (transact env (PublishResults pollId clearTallies decryptionProof) s
            = s) as Hsame by (by eapply transact_Revert).
    split_and!; [done..|]. intros Hs. rewrite Hsame. exists p.
    split_and!; [done..|].
    exact (proj1 (wf_unpublished p (reachable_lookup_wf _ _ _ Hs Hp) Hpub)).
  - intros Hsig. rewrite Hsig in Hrun.
    eexists _, (publishedPoll clearTallies decryptionProof p).
    split; [done|]. split_and!; [|done..].
    simpl. apply list_lookup_insert_eq. by apply lookup_lt_Some in Hp.
  - intros s'. rewrite Hrun. by destruct (verifySignatures _ _ _).
Qed.

Lemma publishResults_fail_closed_witness :
  (publishResults (mkEnv Mock.voterA 313) 0 [3; 0; 0] Mock.proof
                  Mock.sampleFinalized
   = Revert InvalidKMSSignatures Mock.sampleFinalized ∧
   transact (mkEnv Mock.voterA 313) (PublishResults 0 [3; 0; 0] Mock.proof)
            Mock.sampleFinalized
   = Mock.sampleFinalized) ∧
  (∃ s' p',
     publishResults (mkEnv Mock.deployer 313) 0 [0; 1; 1] Mock.proof
                    Mock.sampleFinalized = Done tt s' ∧
     polls s' !! 0%nat = Some p' ∧
     publicResults p' = [0; 1; 1] ∧ resultsPublished p' = true).
Proof.
  split.
  - destruct (proj1 (publishResults_fail_closed (H := Mock.coprocessor)
                       (mkEnv Mock.voterA 313) 0 [3; 0; 0] Mock.proof
                       Mock.sampleFinalized samplePollFinal
                       sampleFinalized_poll eq_refl eq_refl eq_refl))
      as (Hrun & Hsame & _).
    + vm_compute. reflexivity.
    + split; [exact Hrun|exact Hsame].
  - destruct (proj1 (proj2 (publishResults_fail_closed (H := Mock.coprocessor)
                       (mkEnv Mock.deployer 313) 0 [0; 1; 1] Mock.proof
                       Mock.sampleFinalized samplePollFinal
                       sampleFinalized_poll eq_refl eq_refl eq_refl)))
      as (s' & p' & Hrun & Hp' & Hres & _ & Hpub & _).
    + vm_compute. reflexivity.
    + exists s', p'. split; [exact Hrun|]. split; [exact Hp'|].
      split; [exact Hres|exact Hpub].
Defined.

(** ** Reading the published results *)

(** C10. On every existing poll whose results are not published,
    [getPublishedResults] completes and returns an empty results array and
    empty proof bytes; it reverts only for a [pollId] that is not below the
    poll count, with [InvalidPoll]. *)
Theorem getPublishedResults_unpublished `{Coprocessor} pollId s :
  (∀ p, reachable s → polls s !! N.to_nat pollId = Some p →
        resultsPublished p = false →
        getPublishedResults pollId s = Done ([], []) s) ∧
  (N.of_nat (length (polls s)) <= pollId →
   getPublishedResults pollId s = Revert InvalidPoll s) ∧
  (∀ e s', getPublishedResults pollId s = Revert e s' →
           e = InvalidPoll ∧ N.of_nat (length (polls s)) <= pollId).
Proof.
  split_and!.
  - intros p Hs Hp Hpub. unfold getPublishedResults.
    run (pollExists_Some _ _ _ Hp).
    rewrite (readPoll_Some _ _ _ _ Hp).
    destruct (wf_unpublished p (reachable_lookup_wf _ _ _ Hs Hp) Hpub)
      as [-> ->]. done.
  - intros Hge. unfold getPublishedResults.
    by rewrite (bind_Revert _ _ _ _ _
                  (pollExists_None _ _ (pollExists_out_of_range _ _ Hge))).
  - intros e s'. unfold getPublishedResults.
    destruct (polls s !! N.to_nat pollId) as [p|] eqn:Hp.
    + run (pollExists_Some _ _ _ Hp). by rewrite (readPoll_Some _ _ _ _ Hp).
    + rewrite (bind_Revert _ _ _ _ _ (pollExists_None _ _ Hp)).
      intros [= <- <-]. split; [done|]. apply lookup_ge_None in Hp. lia.
Qed.

Lemma sampleFinalized_reachable : reachable Mock.sampleFinalized.
Proof. eapply chain_reachable, sampleFinalized_chain. Qed.

Lemma getPublishedResults_unpublished_witness :
  getPublishedResults 0 Mock.sampleFinalized
  = Done ([], []) Mock.sampleFinalized ∧
  getPublishedResults 1 Mock.sampleFinalized
  = Revert InvalidPoll Mock.sampleFinalized.
Proof.
  split.
  - apply (proj1 (getPublishedResults_unpublished (H := Mock.coprocessor)
                    0 Mock.sampleFinalized) samplePollFinal).
    + apply sampleFinalized_reachable.
    + apply sampleFinalized_poll.
    + reflexivity.
  - apply (proj1 (proj2 (getPublishedResults_unpublished
                           (H := Mock.coprocessor) 1 Mock.sampleFinalized))).
    vm_compute. discriminate.
Defined.

(** ** The two flags *)

(** A storage every coprocessor reaches: a two-option poll created at time
    10 and finalized at time 313, never published. *)
Definition finalizedOnly `{Coprocessor} : Storage :=
  transact (mkEnv 7 313) (FinalizePoll 0)
    (transact (mkEnv 7 10) (CreatePoll "Lunch" ["yes"; "no"] 12 312) genesis).

Lemma finalizedOnly_reachable `{Coprocessor} : reachable finalizedOnly.
Proof. do 2 constructor. constructor. Qed.

(** C8. Along every sequence of transactions each poll stays in the
    registry at its index and its flags [finalized] and [resultsPublished],
    once true, stay true; in every reachable storage [resultsPublished]
    implies [finalized]; the converse fails: a reachable storage holds a
    poll that is finalized and not published. *)
Theorem flags_monotone `{Coprocessor} :
  (∀ s s' (i : nat) p,
     reaches s s' → polls s !! i = Some p →
     ∃ p', polls s' !! i = Some p' ∧
           (finalized p = true → finalized p' = true) ∧
           (resultsPublished p = true → resultsPublished p' = true)) ∧
  (∀ s (i : nat) p,
     reachable s → polls s !! i = Some p →
     resultsPublished p = true → finalized p = true) ∧
  (∃ s p, reachable s ∧ polls s !! 0%nat = Some p ∧
          finalized p = true ∧ resultsPublished p = false).
Proof.
  split_and!.
  - intros s s' i p Hreach Hp.
    destruct (reaches_polls _ _ _ _ Hreach Hp) as (p' & Hp' & Hgrow).
    exists p'. split; [done|]. split; apply Hgrow.
  - intros s i p Hs Hp. apply wf_published. by eapply reachable_lookup_wf.
  - exists finalizedOnly. eexists. split; [apply finalizedOnly_reachable|].
    split; [vm_compute; reflexivity|]. by split.
Qed.

Lemma samplePublished_reachable : reachable Mock.samplePublished.
Proof. eapply chain_reachable, samplePublished_chain. Qed.

Lemma flags_monotone_witness :
  (∃ p', polls Mock.samplePublished !! 0%nat = Some p' ∧
         finalized p' = true) ∧
  finalized samplePollPublished = true.
Proof.
  split.
  - destruct (proj1 (flags_monotone (H := Mock.coprocessor))
                Mock.sampleFinalized Mock.samplePublished 0%nat
                samplePollFinal) as (p' & Hp' & Hfin & _).
    + apply (reaches_later _ (mkEnv Mock.deployer 313)
                           (PublishResults 0 [0; 1; 1] Mock.proof)).
      apply reaches_here.
    + apply sampleFinalized_poll.
    + exists p'. split; [exact Hp'|]. apply Hfin. reflexivity.
  - apply (proj1 (proj2 (flags_monotone (H := Mock.coprocessor)))
             Mock.samplePublished 0%nat samplePollPublished).
    + apply samplePublished_reachable.
    + apply samplePublished_poll.
    + reflexivity.
Defined.

(** ** Finalization and the voting window *)

(** C9. On a chain, where block timestamps never decrease, every
    finalized poll has reached its [endTime]; hence no call of [castVote]
    in a later block reverts with [PollAlreadyFinalized]: on a finalized
    poll the window check fails first and the call reverts with
    [PollNotActive]. *)
Theorem finalized_branch_unreachable `{Coprocessor} now s :
  chain now s →
  (∀ (i : nat) p,
     polls s !! i = Some p → finalized p = true → endTime p <= now) ∧
  (∀ env pollId e i,
     now <= timestamp env →
     (∀ s', castVote env pollId e i s ≠ Revert PollAlreadyFinalized s') ∧
     (∀ p, polls s !! N.to_nat pollId = Some p → finalized p = true →
           castVote env pollId e i s = Revert PollNotActive s)).
Proof.
  intros Hchain.
  assert (∀ (i : nat) p,
            polls s !! i = Some p → finalized p = true → endTime p <= now)
    as Hclosed.
  { intros i p Hp Hfin. apply chain_closedPolls in Hchain.
    eapply Forall_lookup_1 in Hchain; [|done]. by apply Hchain. }
  split; [done|]. intros env pollId e i Hnow.
  pose proof (castVote_run env pollId e i s) as Hrun.
  destruct (polls s !! N.to_nat pollId) as [p|] eqn:Hp.
  2:{ split; [|done]. intros s'. by rewrite Hrun. }
  destruct (finalized p) eqn:Hfin.
  - assert (windowClosed env p = true) as Hwin.
    { apply windowClosed_true. right. specialize (Hclosed _ _ Hp Hfin). lia. }
    rewrite Hwin in Hrun. split.
    + intros s'. by rewrite Hrun.
    + by intros ? [= <-] _.
  - split; [|by intros ? [= <-]; congruence]. intros s'.
    destruct (windowClosed env p); [by rewrite Hrun|].
    destruct (hasVoted _ _ _); [by rewrite Hrun|].
    destruct (verifyInput _ _ _); [|by rewrite Hrun].
    destruct (bool_decide _); [by rewrite Hrun|].
    by destruct Hrun as [? ->].
Qed.

Lemma finalized_branch_unreachable_witness :
  312 <= 313 ∧
  castVote (mkEnv Mock.voterA 313) 0 0 Mock.proof Mock.sampleFinalized
  = Revert PollNotActive Mock.sampleFinalized.
Proof.
  destruct (finalized_branch_unreachable (H := Mock.coprocessor)
              313 Mock.sampleFinalized sampleFinalized_chain)
    as [Hclosed Hvote].
  split.
  - apply (Hclosed 0%nat samplePollFinal sampleFinalized_poll). reflexivity.
  - apply (proj2 (Hvote (mkEnv Mock.voterA 313) 0 0 Mock.proof
                        (N.le_refl 313)) samplePollFinal sampleFinalized_poll).
    reflexivity.
Defined.

(** ** The hidden effect of one vote *)

(** The 32-bit successor computed by [FHE.add _ (FHE.asEuint32 1)]. *)
Definition bump (x : N) : N := (x + 1) mod uint32_modulus.

(** What a vote for [c] does to the hidden value [x] of cell [i]. *)
Definition countCell (c : N) (i : nat) (x : N) : N :=
  if c =? N.of_nat i then bump x else x.

Lemma small_index (i : nat) :
  (i < 4)%nat → N.of_nat i mod uint32_modulus = N.of_nat i.
Proof.
  intros Hi. apply N.mod_small. unfold uint32_modulus.
  apply N.lt_le_trans with 4; [lia|]. by vm_compute.
Qed.

Lemma voteCell_clear choice (i : nat) t :
  (i < 4)%nat →
  FHE.clear (voteCell choice i t) = countCell (FHE.clear choice) i (FHE.clear t).
Proof.
  intros Hi. unfold voteCell, countCell, bump, uint32; simpl.
  rewrite N.Div0.mod_mod, (small_index i Hi).
  by destruct (_ =? _).
Qed.

Lemma hidden_voted choice ts :
  (length ts ≤ 4)%nat →
  hidden (mapRange (voteCell choice) 0 (length ts) ts)
  = imap (countCell (FHE.clear choice)) (hidden ts).
Proof.
  intros Hlen. rewrite mapRange_all. unfold hidden.
  apply list_eq; intros j.
  rewrite list_lookup_fmap, !list_lookup_imap, list_lookup_fmap.
  destruct (ts !! j) as [t|] eqn:Ht; [|done].
  apply lookup_lt_Some in Ht. cbn [fmap option_fmap option_map].
  rewrite voteCell_clear; [done|lia].
Qed.

Lemma imap_countCell_none c (l : list N) :
  N.of_nat (length l) <= c → imap (countCell c) l = l.
Proof.
  intros Hc. apply list_eq; intros j. rewrite list_lookup_imap.
  destruct (l !! j) as [x|] eqn:Hx; [|done]. simpl.
  apply lookup_lt_Some in Hx. unfold countCell.
  destruct (N.eqb_spec c (N.of_nat j)); [lia|done].
Qed.

Lemma imap_countCell_one c (l : list N) :
  imap (countCell c) l = alter bump (N.to_nat c) l.
Proof.
  apply list_eq; intros j. rewrite list_lookup_imap, list_lookup_alter.
  unfold countCell. case_decide as Hj.
  - subst j. by rewrite N2Nat.id, N.eqb_refl.
  - destruct (N.eqb_spec c (N.of_nat j)) as [->|_].
    + by rewrite Nat2N.id in Hj.
    + by destruct (l !! j).
Qed.

Lemma lookup_votedTallies choice (n : nat) ts (j : nat) t :
  n = length ts → ts !! j = Some t →
  mapRange (voteCell choice) 0 n ts !! j = Some (voteCell choice j t).
Proof.
  intros -> Ht. rewrite lookup_mapRange, Ht.
  apply lookup_lt_Some in Ht. rewrite bool_decide_eq_true_2 by lia. done.
Qed.

Lemma castVoteStorage_poll env pollId v p s :
  polls s !! N.to_nat pollId = Some p →
  polls (castVoteStorage env pollId v p s) !! N.to_nat pollId
  = Some (set_tallies
            (mapRange (voteCell (FHE.asEuint32 v)) 0 (length (options p))
                      (tallies p)) p).
Proof.
  intros Hp. simpl. apply list_lookup_insert_eq. by apply lookup_lt_Some in Hp.
Qed.

Lemma castVoteStorage_receipt env pollId v p s :
  hasVoted pollId (sender env) (castVoteStorage env pollId v p s) = true.
Proof.
  change (hasVoted pollId (sender env)
            (set_votes (<[(pollId, sender env) := true]>) s) = true).
  rewrite hasVoted_insert. by case_decide.
Qed.

(** A sender holding a receipt can no longer complete a vote in the poll. *)
Lemma castVote_consumed `{Coprocessor} env pollId e i s s' :
  hasVoted pollId (sender env) s = true →
  castVote env pollId e i s ≠ Done tt s'.
Proof.
  intros Hvoted Hdone.
  apply (exec_effect env (CastVote pollId e i)) in Hdone.
  inversion Hdone; subst. congruence.
Qed.

(** C3. In a reachable storage, a vote that passes the four precondition
    checks and whose imported choice hides a value [c] not below the
    option count completes: the receipt of the caller is recorded (no
    further vote of that caller in the poll can complete) and every tally
    hides the value it hid before. *)
Theorem castVote_out_of_range `{Coprocessor} env pollId encryptedChoice
    inputProof s p v :
  reachable s →
  polls s !! N.to_nat pollId = Some p →
  startTime p <= timestamp env < endTime p →
  finalized p = false →
  hasVoted pollId (sender env) s = false →
  verifyInput (sender env) encryptedChoice inputProof = Some v →
  N.of_nat (length (options p)) <= FHE.clear (FHE.asEuint32 v) →
  ∃ s' p',
    castVote env pollId encryptedChoice inputProof s = Done tt s' ∧
    hasVoted pollId (sender env) s' = true ∧
    (∀ env' e' i' s'', sender env' = sender env →
                       castVote env' pollId e' i' s' ≠ Done tt s'') ∧
    polls s' !! N.to_nat pollId = Some p' ∧
    length (tallies p') = length (tallies p) ∧
    hidden (tallies p') = hidden (tallies p).
Proof.
  intros Hs Hp Hwin Hfin Hvoted Hv Hc.
  pose proof (reachable_lookup_wf _ _ _ Hs Hp) as Hwf.
  pose proof (wf_tallies p Hwf) as Hlen.
  pose proof (wf_options p Hwf) as Hn.
  exists (castVoteStorage env pollId v p s). eexists. split_and!.
  - apply (exec_effect env (CastVote pollId encryptedChoice inputProof)).
    econstructor; eauto. lia.
  - apply castVoteStorage_receipt.
  - intros env' e' i' s'' Hsender. apply castVote_consumed.
    rewrite Hsender. apply castVoteStorage_receipt.
  - by apply castVoteStorage_poll.
  - simpl. apply length_mapRange.
  - simpl. rewrite <- Hlen, hidden_voted by lia.
    apply imap_countCell_none. unfold hidden. rewrite length_fmap. lia.
Qed.

Lemma sampleCreated_reachable : reachable Mock.sampleCreated.
Proof. eapply chain_reachable, sampleCreated_chain. Qed.

Lemma castVote_out_of_range_witness :
  ∃ s' p',
    castVote (mkEnv Mock.voterA 13) 0 3 Mock.proof Mock.sampleCreated
    = Done tt s' ∧
    hasVoted 0 Mock.voterA s' = true ∧
    polls s' !! 0%nat = Some p' ∧
    hidden (tallies p') = [0; 0; 0].
Proof.
  destruct (castVote_out_of_range (H := Mock.coprocessor)
              (mkEnv Mock.voterA 13) 0 3 Mock.proof Mock.sampleCreated
              samplePoll 3 sampleCreated_reachable sampleCreated_poll)
    as (s' & p' & Hrun & Hvoted & _ & Hp' & _ & Hhidden).
  - split; vm_compute; [discriminate|reflexivity].
  - reflexivity.
  - vm_compute. reflexivity.
  - vm_compute. reflexivity.
  - vm_compute. discriminate.
  - exists s', p'. split; [exact Hrun|]. split; [exact Hvoted|].
    split; [exact Hp'|exact Hhidden].
Defined.

(** ** Counting a whole election *)

(** A ballot: who votes, the external handle and input proof submitted,
    and the timestamp of the block that carries the vote. *)
Record Ballot : Type := mkBallot {
  voter : address;
  handle : N;
  ballotProof : bytes;
  castAt : N
}.

(** The number of choices equal to option [i]: component [i] of the sum of
    the one-hot vectors of the choices. *)
Fixpoint countFor (cs : list N) (i : nat) : N :=
  match cs with
  | [] => 0
  | c :: cs' => (if c =? N.of_nat i then 1 else 0) + countFor cs' i
  end.

Lemma countFor_le cs i : countFor cs i <= N.of_nat (length cs).
Proof.
  induction cs as [|c cs IH]; simpl; [done|].
  destruct (_ =? _); lia.
Qed.

Lemma imap_imap {A B C : Type} (f : nat → B → C) (g : nat → A → B)
    (l : list A) :
  imap f (imap g l) = imap (λ i x, f i (g i x)) l.
Proof.
  apply list_eq; intros j. rewrite !list_lookup_imap.
  by destruct (l !! j).
Qed.

Lemma imap_ext_lookup {A B : Type} (f g : nat → A → B) (l : list A) :
  (∀ i x, l !! i = Some x → f i x = g i x) → imap f l = imap g l.
Proof.
  intros Hfg. apply list_eq; intros j. rewrite !list_lookup_imap.
  destruct (l !! j) as [x|] eqn:Hx; [|done]. simpl. f_equal. by apply Hfg.
Qed.

(** Receipts exist only for polls of the registry. *)
Definition receiptsInRange (s : Storage) : Prop :=
  ∀ pollId user, hasVoted pollId user s = true →
                 (N.to_nat pollId < length (polls s))%nat.

Section Election.
Context `{Coprocessor}.

Definition castBallot (pollId : N) (s : Storage) (b : Ballot) : Storage :=
  transact (mkEnv (voter b) (castAt b))
           (CastVote pollId (handle b) (ballotProof b)) s.

Definition castBallots (pollId : N) (bs : list Ballot) (s : Storage)
    : Storage :=
  foldl (castBallot pollId) s bs.

(** Ballot [b] is cast inside the window of [p] and its input hides the
    index [c] of one of the options of [p]. *)
Definition ballotFor (p : Poll) (b : Ballot) (c : N) : Prop :=
  startTime p <= castAt b < endTime p ∧
  (∃ v, verifyInput (voter b) (handle b) (ballotProof b) = Some v ∧
        FHE.clear (FHE.asEuint32 v) = c) ∧
  c < N.of_nat (length (options p)).

Lemma effect_receiptsInRange env s c s' :
  effect env s c s' → receiptsInRange s → receiptsInRange s'.
Proof.
  intros [t o a b Ho Hab Hb|pollId e i p v Hp Hwin Hfin Hvoted Hv Hlen
         |pollId p Hp Hend Hfin|pollId r d p Hp Hfin Hpub Hlen Hsig] Hs
         pid user Hv'.
  - simpl. rewrite length_app. specialize (Hs pid user Hv'). lia.
  - change (hasVoted pid user
              (set_votes (<[(pollId, sender env) := true]>) s) = true) in Hv'.
    rewrite hasVoted_insert in Hv'. simpl. rewrite length_insert.
    case_decide as Heq; [|by apply (Hs pid user)].
    injection Heq as <- _. by apply lookup_lt_Some in Hp.
  - simpl. rewrite length_insert. by apply (Hs pid user).
  - simpl. rewrite length_insert. by apply (Hs pid user).
Qed.

Lemma reachable_receiptsInRange s : reachable s → receiptsInRange s.
Proof.
  induction 1 as [|env c s _ IH]; [by intros ? ?|].
  destruct (transact_effect env c s) as [->|He]; [done|].
  by eapply effect_receiptsInRange.
Qed.

Lemma castBallots_reachable pollId bs : ∀ s,
  reachable s → reachable (castBallots pollId bs s).
Proof.
  induction bs as [|b bs IH]; intros s Hs; [done|].
  apply IH. by constructor.
Qed.

Lemma castBallot_valid pollId s p b c :
  polls s !! N.to_nat pollId = Some p → wfPoll p → finalized p = false →
  ballotFor p b c → hasVoted pollId (voter b) s = false →
  ∃ v, FHE.clear (FHE.asEuint32 v) = c ∧
       castBallot pollId s b
       = castVoteStorage (mkEnv (voter b) (castAt b)) pollId v p s.
Proof.
  intros Hp Hwf Hfin (Hwin & (v & Hv & Hc) & Hlt) Hvoted.
  exists v. split; [done|]. apply transact_Done, exec_effect.
  econstructor; eauto. rewrite (wf_tallies p Hwf). done.
Qed.

(** After the ballots of distinct voters are cast, in any order of the
    list, option [i] counts the ballots that chose [i] on top of what it
    held, modulo [2^32]. *)
Lemma castBallots_tally pollId bs : ∀ cs s p,
  polls s !! N.to_nat pollId = Some p → wfPoll p → finalized p = false →
  Forall2 (ballotFor p) bs cs →
  NoDup (voter <$> bs) →
  Forall (λ b, hasVoted pollId (voter b) s = false) bs →
  ∃ p', polls (castBallots pollId bs s) !! N.to_nat pollId = Some p' ∧
        pollGrows p p' ∧ wfPoll p' ∧ finalized p' = false ∧
        resultsPublished p' = resultsPublished p ∧
        hidden (tallies p')
        = imap (λ i x, (x + countFor cs i) mod uint32_modulus)
               (hidden (tallies p)).
Proof.
  induction bs as [|b bs IH]; intros cs s p Hp Hwf Hfin Hbs Hnodup Hfresh.
  - apply Forall2_nil_inv_l in Hbs as ->. exists p.
    split_and!; [done|apply pollGrows_refl|done..|].
    apply list_eq; intros j. rewrite list_lookup_imap. unfold hidden.
    rewrite list_lookup_fmap. destruct (tallies p !! j) as [t|] eqn:Ht; [|done].
    simpl. rewrite N.add_0_r, N.mod_small; [done|].
    pose proof (wf_cells p Hwf) as Hcells.
    eapply Forall_lookup_1 in Hcells; [|done]. apply Hcells.
  - apply Forall2_cons_inv_l in Hbs as (c & cs' & Hb & Hbs & ->).
    apply NoDup_cons in Hnodup as [Hnotin Hnodup].
    apply Forall_cons in Hfresh as [Hvb Hfresh].
    destruct (castBallot_valid pollId s p b c Hp Hwf Hfin Hb Hvb)
      as (v & Hc & Hstep).
    set (p1 := set_tallies
                 (mapRange (voteCell (FHE.asEuint32 v)) 0
                           (length (options p)) (tallies p)) p).
    destruct (IH cs' (castBallot pollId s b) p1) as (p' & Hp' & Hg & Hwf' & Hfin' & Hpub' & Hhid).
    + rewrite Hstep. by apply castVoteStorage_poll.
    + by apply votedPoll_wf.
    + done.
    + done.
    + done.
    + rewrite Hstep. apply Forall_forall. intros b' Hb'.
      change (hasVoted pollId (voter b')
                (set_votes (<[(pollId, voter b) := true]>) s) = false).
      rewrite hasVoted_insert. case_decide as Heq.
      * injection Heq as Heq. destruct Hnotin.
        rewrite Heq. by apply list_elem_of_fmap_2.
      * rewrite Forall_forall in Hfresh. by apply Hfresh.
    + exists p'. split_and!; try done.
      * eapply pollGrows_trans; [|done]. by split.
      * rewrite Hhid. subst p1. rewrite tallies_set_tallies.
        rewrite <- (wf_tallies p Hwf) at 1.
        rewrite hidden_voted
          by (rewrite (wf_tallies p Hwf); pose proof (wf_options p Hwf); lia).
        rewrite imap_imap. apply imap_ext_lookup. intros i x _.
        rewrite Hc. unfold countCell, bump. simpl countFor.
        destruct (c =? N.of_nat i).
        -- rewrite N.Div0.add_mod_idemp_l. f_equal. lia.
        -- by rewrite N.add_0_l.
Qed.
End Election.

Lemma imap_replicate_count (cs : list N) (n : nat) :
  N.of_nat (length cs) < uint32_modulus →
  imap (λ i x, (x + countFor cs i) mod uint32_modulus) (replicate n 0)
  = countFor cs <$> seq 0 n.
Proof.
  intros Hcs. apply list_eq; intros j.
  rewrite list_lookup_imap, list_lookup_fmap.
  destruct (decide (j < n)%nat) as [Hj|Hj].
  - rewrite lookup_replicate_2, lookup_seq_lt by done. simpl.
    rewrite N.add_0_l, N.mod_small; [done|].
    pose proof (countFor_le cs j). lia.
  - rewrite (proj1 (lookup_replicate_None _ _ _)) by lia.
    by rewrite lookup_seq_ge by lia.
Qed.

Section ElectionResult.
Context `{Coprocessor}.

(** The whole life of one poll: created on a reachable storage, voted on
    by distinct voters inside the window, finalized at or after the end.
    Its tallies then hide, option by option, the number of ballots that
    chose the option, and publishing these numbers stores them. *)
Lemma election_result env0 title labels start stop s0 bs cs envF envP d :
  let pollId := N.of_nat (length (polls s0)) in
  let counts := countFor cs <$> seq 0 (length labels) in
  let s3 :=
    transact envF (FinalizePoll pollId)
      (castBallots pollId bs
         (transact env0 (CreatePoll title labels start stop) s0)) in
  reachable s0 →
  (2 ≤ length labels ≤ 4)%nat → start < stop → timestamp env0 < stop →
  Forall2 (ballotFor (newPoll env0 title labels start stop)) bs cs →
  NoDup (voter <$> bs) →
  N.of_nat (length bs) < uint32_modulus →
  stop <= timestamp envF →
  (∀ hs, hidden hs = counts →
         Forall (λ t, FHE.publiclyDecryptable t = true) hs →
         verifySignatures hs counts d = true) →
  ∃ p3 p4,
    polls s3 !! N.to_nat pollId = Some p3 ∧
    finalized p3 = true ∧
    hidden (tallies p3) = counts ∧
    polls (transact envP (PublishResults pollId counts d) s3)
      !! N.to_nat pollId = Some p4 ∧
    resultsPublished p4 = true ∧
    publicResults p4 = counts.
Proof.
  intros pollId counts s3 Hs0 Hn Hwin Hfuture Hbs Hnodup Hlen Hend Hsig.
  set (p0 := newPoll env0 title labels start stop) in *.
  set (s1 := transact env0 (CreatePoll title labels start stop) s0) in *.
  assert (s1 = set_events
                 (λ l, l ++ [PollCreated pollId title start stop])
                 (set_polls (λ l, l ++ [p0]) s0)) as Hs1.
  { apply transact_Done, exec_effect. by constructor. }
  assert (polls s1 !! N.to_nat pollId = Some p0) as Hp0.
  { rewrite Hs1. simpl. subst pollId. rewrite Nat2N.id.
    by apply list_lookup_middle. }
  assert (Forall (λ b, hasVoted pollId (voter b) s1 = false) bs) as Hfresh.
  { apply Forall_forall. intros b _.
    destruct (hasVoted pollId (voter b) s1) eqn:Hv; [|done].
    rewrite Hs1 in Hv.
    apply (reachable_receiptsInRange _ Hs0) in Hv.
    subst pollId. rewrite Nat2N.id in Hv. lia. }
  destruct (castBallots_tally pollId bs cs s1 p0 Hp0
              (newPoll_wf _ _ _ _ _ Hn Hwin) eq_refl Hbs Hnodup Hfresh)
    as (p2 & Hp2 & Hgrow & Hwf2 & Hfin2 & Hpub2 & Hhid2).
  set (s2 := castBallots pollId bs s1) in *.
  assert (hidden (tallies p2) = counts) as Hcounts.
  { rewrite Hhid2. unfold p0, hidden; simpl. rewrite fmap_replicate. simpl.
    apply imap_replicate_count.
    by rewrite <- (Forall2_length _ _ _ Hbs). }
  assert (s3 = set_events (λ l, l ++ [PollFinalized pollId])
                 (updPoll pollId (finalizedPoll p2) s2)) as Hs3.
  { apply transact_Done, exec_effect. constructor; [done| |done].
    destruct (grows_window _ _ Hgrow) as [_ ->]. done. }
  assert (polls s3 !! N.to_nat pollId = Some (finalizedPoll p2)) as Hp3.
  { rewrite Hs3. simpl. apply list_lookup_insert_eq.
    by apply lookup_lt_Some in Hp2. }
  exists (finalizedPoll p2), (publishedPoll counts d (finalizedPoll p2)).
  split_and!; [done|done|by rewrite finalizedPoll_hidden| |done|done].
  assert (transact envP (PublishResults pollId counts d) s3
          = set_events (λ l, l ++ [ResultsPublished pollId counts])
              (updPoll pollId
                 (publishedPoll counts d (finalizedPoll p2)) s3)) as ->.
  { apply transact_Done, exec_effect. constructor; [done|done| | |].
    - simpl. rewrite Hpub2. done.
    - simpl. rewrite (grows_options _ _ Hgrow). unfold counts.
      by rewrite length_fmap, length_seq.
    - apply Hsig; [by rewrite finalizedPoll_hidden|].
      apply finalizedPoll_decryptable. }
  simpl. apply list_lookup_insert_eq. by apply lookup_lt_Some in Hp3.
Qed.
End ElectionResult.

(** ** One vote, and the scenario of the test-suite *)

Lemma castVote_single `{Coprocessor} env pollId e i s p v s' :
  reachable s → polls s !! N.to_nat pollId = Some p →
  verifyInput (sender env) e i = Some v →
  castVote env pollId e i s = Done tt s' →
  ∃ p', polls s' !! N.to_nat pollId = Some p' ∧
        length (tallies p') = length (options p) ∧
        (∀ (j : nat) t, tallies p !! j = Some t →
           tallies p' !! j = Some (voteCell (FHE.asEuint32 v) j t)) ∧
        hidden (tallies p')
        = alter bump (N.to_nat (FHE.clear (FHE.asEuint32 v)))
                (hidden (tallies p)).
Proof.
  intros Hs Hp Hv Hdone.
  pose proof (reachable_lookup_wf _ _ _ Hs Hp) as Hwf.
  pose proof (wf_tallies p Hwf) as Hlen.
  pose proof (wf_options p Hwf) as Hn.
  apply (exec_effect env (CastVote pollId e i)) in Hdone.
  inversion Hdone as [|? ? ? q w Hq _ _ _ Hw _| |]; subst.
  assert (q = p) as -> by congruence. assert (w = v) as -> by congruence.
  eexists. split; [by apply castVoteStorage_poll|]. split_and!.
  - simpl. by rewrite length_mapRange.
  - intros j t Ht. simpl. by apply lookup_votedTallies.
  - simpl. rewrite <- Hlen, hidden_voted by lia. apply imap_countCell_one.
Qed.

(** C1 (amended). A completed [castVote] whose imported choice hides an
    index [c] below the option count rewrites every tally [i] of the poll
    with the oblivious select between [tallies[i]+1] and [tallies[i]];
    the hidden value [x] of [tallies[c]] becomes [(x+1) mod 2^32], that is
    [x+1] unless [x] is the largest 32-bit value, and every other hidden
    value is unchanged.  Consequently a poll created, voted on by fewer
    than [2^32] distinct voters inside the window, finalized and published
    with the hidden values of its tallies, publishes for each option the
    number of ballots that chose it (the sum of the one-hot vectors of the
    choices). *)
Theorem castVote_counts `{Coprocessor} :
  (∀ env pollId e i s p v s',
     reachable s → polls s !! N.to_nat pollId = Some p →
     verifyInput (sender env) e i = Some v →
     FHE.clear (FHE.asEuint32 v) < N.of_nat (length (options p)) →
     castVote env pollId e i s = Done tt s' →
     ∃ p' x,
       polls s' !! N.to_nat pollId = Some p' ∧
       length (tallies p') = length (options p) ∧
       (∀ (j : nat) t, tallies p !! j = Some t →
          tallies p' !! j = Some (voteCell (FHE.asEuint32 v) j t)) ∧
       hidden (tallies p) !! N.to_nat (FHE.clear (FHE.asEuint32 v)) = Some x ∧
       hidden (tallies p') !! N.to_nat (FHE.clear (FHE.asEuint32 v))
       = Some ((x + 1) mod uint32_modulus) ∧
       (x + 1 < uint32_modulus →
        hidden (tallies p') !! N.to_nat (FHE.clear (FHE.asEuint32 v))
        = Some (x + 1)) ∧
       (∀ j : nat, j ≠ N.to_nat (FHE.clear (FHE.asEuint32 v)) →
          hidden (tallies p') !! j = hidden (tallies p) !! j)) ∧
  (∀ env0 title labels start stop s0 bs cs envF envP d,
     let pollId := N.of_nat (length (polls s0)) in
     let counts := countFor cs <$> seq 0 (length labels) in
     let s3 :=
       transact envF (FinalizePoll pollId)
         (castBallots pollId bs
            (transact env0 (CreatePoll title labels start stop) s0)) in
     reachable s0 →
     (2 ≤ length labels ≤ 4)%nat → start < stop → timestamp env0 < stop →
     Forall2 (ballotFor (newPoll env0 title labels start stop)) bs cs →
     NoDup (voter <$> bs) →
     N.of_nat (length bs) < uint32_modulus →
     stop <= timestamp envF →
     (∀ hs, hidden hs = counts →
            Forall (λ t, FHE.publiclyDecryptable t = true) hs →
            verifySignatures hs counts d = true) →
     ∃ p3 p4,
       polls s3 !! N.to_nat pollId = Some p3 ∧
       finalized p3 = true ∧
       hidden (tallies p3) = counts ∧
       polls (transact envP (PublishResults pollId counts d) s3)
         !! N.to_nat pollId = Some p4 ∧
       resultsPublished p4 = true ∧
       publicResults p4 = counts).
Proof.
  split.
  - intros env pollId e i s p v s' Hs Hp Hv Hc Hdone.
    destruct (castVote_single env pollId e i s p v s' Hs Hp Hv Hdone)
      as (p' & Hp' & Hlen & Hcells & Hhid).
    pose proof (wf_tallies p (reachable_lookup_wf _ _ _ Hs Hp)) as Hlenp.
    set (c := FHE.clear (FHE.asEuint32 v)) in *.
    destruct (lookup_lt_is_Some_2 (hidden (tallies p)) (N.to_nat c))
      as [x Hx].
    { unfold hidden. rewrite length_fmap. lia. }
    exists p', x. split_and!; try done.
    + by rewrite Hhid, list_lookup_alter_eq, Hx.
    + intros Hsmall. rewrite Hhid, list_lookup_alter_eq, Hx. simpl.
      unfold bump. by rewrite N.mod_small.
    + intros j Hj. rewrite Hhid. by apply list_lookup_alter_ne.
  - intros. by eapply election_result.
Qed.

(** The plaintext verifier accepts the hidden values of decryptable
    handles. *)
Lemma mock_accepts_hidden hs cs :
  hidden hs = cs →
  Forall (λ t, FHE.publiclyDecryptable t = true) hs →
  verifySignatures hs cs Mock.proof = true.
Proof.
  intros Hcs Hdec. simpl. apply andb_true_iff. split.
  - apply forallb_forall. intros t Ht.
    rewrite Forall_forall in Hdec. apply Hdec. by apply list_elem_of_In.
  - by apply bool_decide_eq_true_2.
Qed.

Definition ballotA : Ballot := mkBallot Mock.voterA 1 Mock.proof 13.
Definition ballotB : Ballot := mkBallot Mock.voterB 2 Mock.proof 13.

Lemma castVote_counts_witness :
  (∃ p', polls Mock.sampleVotedA !! 0%nat = Some p' ∧
         hidden (tallies p') !! 1%nat = Some 1 ∧
         hidden (tallies p') !! 0%nat = Some 0) ∧
  (∃ p4, polls (transact (mkEnv Mock.deployer 313)
                         (PublishResults 0 [0; 1; 1] Mock.proof)
                         (transact (mkEnv Mock.deployer 313) (FinalizePoll 0)
                            (castBallots 0 [ballotA; ballotB]
                                         Mock.sampleCreated)))
           !! 0%nat = Some p4 ∧
         publicResults p4 = [0; 1; 1]).
Proof.
  split.
  - destruct (proj1 (castVote_counts (H := Mock.coprocessor))
                (mkEnv Mock.voterA 13) 0 1 Mock.proof Mock.sampleCreated
                samplePoll 1 Mock.sampleVotedA sampleCreated_reachable
                sampleCreated_poll)
      as (p' & x & Hp' & _ & _ & Hx & _ & Hone & Hother).
    + vm_compute. reflexivity.
    + vm_compute. reflexivity.
    + vm_compute. reflexivity.
    + exists p'. split; [exact Hp'|].
      assert (x = 0) as -> by (vm_compute in Hx; congruence).
      split.
      * apply Hone. vm_compute. reflexivity.
      * rewrite (Hother 0%nat); [vm_compute; reflexivity|].
        vm_compute. discriminate.
  - destruct (proj2 (castVote_counts (H := Mock.coprocessor))
                (mkEnv Mock.deployer 10) "Favorite language"
                Mock.sampleLabels 12 312 genesis [ballotA; ballotB] [1; 2]
                (mkEnv Mock.deployer 313) (mkEnv Mock.deployer 313)
                Mock.proof)
      as (p3 & p4 & _ & _ & _ & Hp4 & _ & Hres).
    + apply reachable_genesis.
    + vm_compute. split; apply (bool_decide_unpack _); vm_compute; exact I.
    + vm_compute. reflexivity.
    + vm_compute. reflexivity.
    + repeat constructor; try (vm_compute; (discriminate || reflexivity)).
      * by exists 1.
      * by exists 2.
    + apply (bool_decide_unpack _). vm_compute. exact I.
    + vm_compute. reflexivity.
    + vm_compute. discriminate.
    + intros hs Hhs Hdec. exact (mock_accepts_hidden hs _ Hhs Hdec).
    + exists p4. split; [exact Hp4|exact Hres].
Defined.

(** ** The 32-bit counter wraps around *)

(** [k] ballots for option 0 of the sample poll, from the voters
    [0 .. k-1], and the storage after they are cast. *)
Definition zeroBallot (a : nat) : Ballot := mkBallot (N.of_nat a) 0 Mock.proof 13.

Definition overflowBallots (k : nat) : list Ballot := zeroBallot <$> seq 0 k.

Definition overflowStorage (k : nat) : Storage :=
  castBallots 0 (overflowBallots k) Mock.sampleCreated.

Lemma countFor_replicate_zero (k i : nat) :
  countFor (replicate k 0) i = if decide (i = 0%nat) then N.of_nat k else 0.
Proof.
  induction k as [|k IH]; [by case_decide|].
  change (countFor (replicate (S k) 0) i)
    with ((if 0 =? N.of_nat i then 1 else 0) + countFor (replicate k 0) i).
  rewrite IH. case_decide as Hi.
  - subst i. change (0 =? N.of_nat 0) with true. cbv iota. lia.
  - destruct (N.eqb_spec 0 (N.of_nat i)); [lia|done].
Qed.

Lemma zeroBallots_valid (l : list nat) :
  Forall2 (ballotFor samplePoll) (zeroBallot <$> l) (replicate (length l) 0).
Proof.
  induction l as [|a l IH]; [constructor|].
  constructor; [|exact IH]. split_and!.
  - by vm_compute.
  - by vm_compute.
  - by exists 0.
  - by vm_compute.
Qed.

Lemma effect_receipt_origin `{Coprocessor} env s c s' pollId user :
  effect env s c s' → hasVoted pollId user s' = true →
  hasVoted pollId user s = true ∨ user = sender env.
Proof.
  intros [t o a b Ho Hab Hb|pid e i p v Hp Hwin Hfin Hvoted Hv Hlen
         |pid p Hp Hend Hfin|pid r d p Hp Hfin Hpub Hlen Hsig] Hv';
    try (by left).
  change (hasVoted pollId user
            (set_votes (<[(pid, sender env) := true]>) s) = true) in Hv'.
  rewrite hasVoted_insert in Hv'. case_decide as Heq; [|by left].
  right. by injection Heq.
Qed.

Lemma transact_receipt_origin `{Coprocessor} env c s pollId user :
  hasVoted pollId user (transact env c s) = true →
  hasVoted pollId user s = true ∨ user = sender env.
Proof.
  intros Hv. destruct (transact_effect env c s) as [Hsame|He].
  - left. by rewrite Hsame in Hv.
  - by eapply effect_receipt_origin.
Qed.

Lemma castBallots_receipt_origin `{Coprocessor} pollId bs : ∀ s pid user,
  hasVoted pid user (castBallots pollId bs s) = true →
  hasVoted pid user s = true ∨ user ∈ voter <$> bs.
Proof.
  induction bs as [|b bs IH]; intros s pid user Hv; [by left|].
  destruct (IH _ _ _ Hv) as [Hv'|Hin].
  - destruct (transact_receipt_origin _ _ _ _ _ Hv') as [Hv''|Hu];
      [by left|right]. rewrite Hu. simpl. apply list_elem_of_here.
  - right. simpl. by apply list_elem_of_further.
Qed.

Lemma sampleCreated_no_receipt pollId user :
  hasVoted pollId user Mock.sampleCreated = false.
Proof.
  unfold hasVoted.
  assert (votes Mock.sampleCreated = ∅) as -> by (by vm_compute).
  by rewrite lookup_empty.
Qed.

(** After [k] such ballots, with [k] the largest 32-bit number, the first
    tally hides [2^32 - 1] and voter [k] has not voted. *)
Lemma overflow_ready (k : nat) :
  N.of_nat k = 4294967295 →
  reachable (overflowStorage k) ∧
  hasVoted 0 4294967295 (overflowStorage k) = false ∧
  ∃ p, polls (overflowStorage k) !! N.to_nat 0 = Some p ∧
       wfPoll p ∧ finalized p = false ∧
       options p = Mock.sampleLabels ∧
       startTime p = 12 ∧ endTime p = 312 ∧
       hidden (tallies p) = [4294967295; 0; 0].
Proof.
  intros Hk. split_and!.
  - apply castBallots_reachable, sampleCreated_reachable.
  - destruct (hasVoted 0 4294967295 (overflowStorage k)) eqn:Hv; [|done].
    apply castBallots_receipt_origin in Hv as [Hv|Hin].
    + by rewrite sampleCreated_no_receipt in Hv.
    + unfold overflowBallots in Hin. rewrite <- list_fmap_compose in Hin.
      apply list_elem_of_fmap in Hin as (a & Ha & Hin).
      apply elem_of_seq in Hin. simpl in Ha. lia.
  - destruct (castBallots_tally 0 (overflowBallots k) (replicate k 0)
                Mock.sampleCreated samplePoll sampleCreated_poll)
      as (p & Hp & Hgrow & Hwf & Hfin & _ & Hhid).
    + eapply reachable_lookup_wf;
        [apply sampleCreated_reachable|apply sampleCreated_poll].
    + done.
    + pose proof (zeroBallots_valid (seq 0 k)) as Hvalid.
      by rewrite length_seq in Hvalid.
    + unfold overflowBallots. rewrite <- list_fmap_compose.
      apply NoDup_fmap_2; [|apply NoDup_seq].
      intros a b Hab. simpl in Hab. lia.
    + apply Forall_forall. intros b _. apply sampleCreated_no_receipt.
    + exists p. split_and!; try done.
      * by rewrite (grows_options _ _ Hgrow).
      * by destruct (grows_window _ _ Hgrow) as [-> _].
      * by destruct (grows_window _ _ Hgrow) as [_ ->].
      * rewrite Hhid.
        change (hidden (tallies samplePoll)) with [0; 0; 0].
        cbn [imap]. unfold compose.
        rewrite !countFor_replicate_zero.
        rewrite decide_True by done. rewrite !decide_False by done.
        rewrite Hk. by vm_compute.
Qed.

(** One more vote for option 0, by voter [2^32 - 1], completes and takes
    the first tally from [2^32 - 1] to 0. *)
Lemma overflow_vote (k : nat) :
  N.of_nat k = 4294967295 →
  ∃ p s' p',
    reachable (overflowStorage k) ∧
    polls (overflowStorage k) !! N.to_nat 0 = Some p ∧
    verifyInput 4294967295 0 Mock.proof = Some 0 ∧
    FHE.clear (FHE.asEuint32 0) < N.of_nat (length (options p)) ∧
    castVote (mkEnv 4294967295 13) 0 0 Mock.proof (overflowStorage k)
    = Done tt s' ∧
    polls s' !! N.to_nat 0 = Some p' ∧
    hidden (tallies p) !! 0%nat = Some 4294967295 ∧
    hidden (tallies p') !! 0%nat = Some 0.
Proof.
  intros Hk.
  destruct (overflow_ready k Hk)
    as (Hreach & Hfresh & p & Hp & Hwf & Hfin & Hopts & Hstart & Hend & Hhid).
  assert (castVote (mkEnv 4294967295 13) 0 0 Mock.proof (overflowStorage k)
          = Done tt (castVoteStorage (mkEnv 4294967295 13) 0 0 p
                                     (overflowStorage k))) as Hrun.
  { apply (exec_effect (mkEnv 4294967295 13) (CastVote 0 0 Mock.proof)).
    apply (effect_vote _ _ 0 0 Mock.proof p 0);
      [exact Hp| |exact Hfin|exact Hfresh|reflexivity|].
    - rewrite Hstart, Hend. by vm_compute.
    - by rewrite (wf_tallies p Hwf). }
  destruct (castVote_single (mkEnv 4294967295 13) 0 0 Mock.proof
              (overflowStorage k) p 0 _ Hreach Hp eq_refl Hrun)
    as (p' & Hp' & _ & _ & Hhid').
  exists p, (castVoteStorage (mkEnv 4294967295 13) 0 0 p (overflowStorage k)),
    p'.
  split_and!; [exact Hreach|exact Hp|reflexivity| |exact Hrun|exact Hp'| |].
  - rewrite Hopts. by vm_compute.
  - by rewrite Hhid.
  - rewrite Hhid', Hhid. by vm_compute.
Qed.

(** C1, as stated, fails: in a reachable storage whose first tally hides
    the largest 32-bit value, a completed vote for option 0 leaves that
    tally hiding 0, not one more than before. *)
Lemma castVote_counts_counterexample :
  ∃ s p s' p',
    reachable s ∧
    polls s !! N.to_nat 0 = Some p ∧
    verifyInput 4294967295 0 Mock.proof = Some 0 ∧
    FHE.clear (FHE.asEuint32 0) < N.of_nat (length (options p)) ∧
    castVote (mkEnv 4294967295 13) 0 0 Mock.proof s = Done tt s' ∧
    polls s' !! N.to_nat 0 = Some p' ∧
    hidden (tallies p) !! 0%nat = Some 4294967295 ∧
    hidden (tallies p') !! 0%nat = Some 0.
Proof.
  exists (overflowStorage (N.to_nat 4294967295)).
  exact (overflow_vote (N.to_nat 4294967295) (N2Nat.id 4294967295)).
Qed.

(** * Further properties of the contract *)

(** ** Read operations *)

Lemma guarded_read_Some `{Coprocessor} {A : Type} pollId (f : Poll → A) s p :
  polls s !! N.to_nat pollId = Some p →
  (pollExists pollId;; readPoll pollId f) s = Done (f p) s.
Proof.
  intros Hp. run (pollExists_Some _ _ _ Hp). by apply readPoll_Some.
Qed.

Lemma guarded_None `{Coprocessor} {A : Type} pollId (m : Tx A) s :
  N.of_nat (length (polls s)) <= pollId →
  (pollExists pollId;; m) s = Revert InvalidPoll s.
Proof.
  intros Hge.
  by rewrite (bind_Revert _ _ _ _ _
                (pollExists_None _ _ (pollExists_out_of_range _ _ Hge))).
Qed.

(** X1. The five read operations guarded by [pollExists] return the stored
    members of an existing poll and leave the storage as it is; for a
    [pollId] at or above the poll count each of them reverts with
    [InvalidPoll]. *)
Theorem views_outcome `{Coprocessor} pollId user s :
  (∀ p, polls s !! N.to_nat pollId = Some p →
     getPollSummary pollId s
     = Done (title p, startTime p, endTime p, N.of_nat (length (options p)),
             finalized p, resultsPublished p, creator p) s ∧
     getPollOptions pollId s = Done (options p) s ∧
     getEncryptedTallies pollId s = Done (tallies p) s ∧
     getPublishedResults pollId s
     = Done (publicResults p, publicDecryptionProof p) s ∧
     hasUserVoted pollId user s = Done (hasVoted pollId user s) s) ∧
  (N.of_nat (length (polls s)) <= pollId →
     getPollSummary pollId s = Revert InvalidPoll s ∧
     getPollOptions pollId s = Revert InvalidPoll s ∧
     getEncryptedTallies pollId s = Revert InvalidPoll s ∧
     getPublishedResults pollId s = Revert InvalidPoll s ∧
     hasUserVoted pollId user s = Revert InvalidPoll s).
Proof.
  split.
  - intros p Hp. split_and!.
    + unfold getPollSummary.
      exact (guarded_read_Some pollId _ s p Hp).
    + exact (guarded_read_Some pollId options s p Hp).
    + exact (guarded_read_Some pollId tallies s p Hp).
    + unfold getPublishedResults.
      exact (guarded_read_Some pollId _ s p Hp).
    + unfold hasUserVoted. by run (pollExists_Some _ _ _ Hp).
  - intros Hge. split_and!.
    + exact (guarded_None pollId _ s Hge).
    + exact (guarded_None pollId _ s Hge).
    + exact (guarded_None pollId _ s Hge).
    + exact (guarded_None pollId _ s Hge).
    + exact (guarded_None pollId _ s Hge).
Qed.

Lemma views_outcome_witness :
  getPollSummary 0 Mock.sampleFinalized
  = Done ("Favorite language", 12, 312, 3, true, false, Mock.deployer)
         Mock.sampleFinalized ∧
  hasUserVoted 0 Mock.voterA Mock.sampleFinalized
  = Done true Mock.sampleFinalized ∧
  getEncryptedTallies 5 Mock.sampleFinalized
  = Revert InvalidPoll Mock.sampleFinalized.
Proof.
  split_and!.
  - apply (proj1 (views_outcome (H := Mock.coprocessor) 0 Mock.voterA
                    Mock.sampleFinalized) samplePollFinal
                    sampleFinalized_poll).
  - apply (proj1 (views_outcome (H := Mock.coprocessor) 0 Mock.voterA
                    Mock.sampleFinalized) samplePollFinal
                    sampleFinalized_poll).
  - apply (proj2 (views_outcome (H := Mock.coprocessor) 5 Mock.voterA
                    Mock.sampleFinalized)).
    vm_compute. discriminate.
Defined.

(** ** The registry *)

Lemma effect_count `{Coprocessor} env s c s' :
  effect env s c s' →
  length (polls s') =
  match c with
  | CreatePoll _ _ _ _ => S (length (polls s))
  | _ => length (polls s)
  end.
Proof.
  intros [t o a b Ho Hab Hb|pid e i p v Hp Hwin Hfin Hvoted Hv Hlen
         |pid p Hp Hend Hfin|pid r d p Hp Hfin Hpub Hlen Hsig]; simpl.
  - rewrite length_app. simpl. lia.
  - apply length_insert.
  - apply length_insert.
  - apply length_insert.
Qed.

(** X2. The registry is append-only: a completed [createPoll] raises the poll
    count by one and returns the previous count as identifier, every
    other completed call and every reverted call leaves the count as it
    is, and no sequence of transactions lowers it. *)
Theorem registry_append_only `{Coprocessor} :
  (∀ env t o a b s pollId s',
     createPoll env t o a b s = Done pollId s' →
     getPollCount s = Done pollId s ∧ getPollCount s' = Done (pollId + 1) s') ∧
  (∀ env c s,
     (∀ t o a b, c ≠ CreatePoll t o a b) →
     getPollCount (transact env c s)
     = Done (N.of_nat (length (polls s))) (transact env c s)) ∧
  (∀ s s', reaches s s' → (length (polls s) ≤ length (polls s'))%nat).
Proof.
  split_and!.
  - intros env t o a b s pollId s'. rewrite createPoll_eq.
    unfold createPollOutcome. cbv zeta.
    destruct (_ || _); [done|]. destruct (_ || _); [done|].
    intros [= <- <-]. unfold getPollCount, gets; simpl.
    split; [done|]. rewrite length_app. simpl. do 2 f_equal. lia.
  - intros env c s Hc. unfold getPollCount, gets. f_equal.
    destruct (transact_effect env c s) as [->|He]; [done|].
    rewrite (effect_count _ _ _ _ He).
    destruct c as [t o a b| | |]; [by destruct (Hc t o a b)|done..].
  - induction 1 as [|env c s' _ IH]; [done|].
    destruct (transact_effect env c s') as [->|He]; [done|].
    rewrite (effect_count _ _ _ _ He). destruct c; lia.
Qed.

Lemma registry_append_only_witness :
  getPollCount Mock.sampleCreated = Done 1 Mock.sampleCreated ∧
  getPollCount Mock.sampleVotedA = Done 1 Mock.sampleVotedA ∧
  (length (polls Mock.sampleCreated)
   ≤ length (polls Mock.samplePublished))%nat.
Proof.
  split_and!.
  - apply (proj1 (registry_append_only (H := Mock.coprocessor))
             (mkEnv Mock.deployer 10) "Favorite language" Mock.sampleLabels
             12 312 genesis 0 Mock.sampleCreated).
    vm_compute. reflexivity.
  - apply (proj1 (proj2 (registry_append_only (H := Mock.coprocessor)))
             (mkEnv Mock.voterA 13) (CastVote 0 1 Mock.proof)
             Mock.sampleCreated).
    intros t o a b. discriminate.
  - apply (proj2 (proj2 (registry_append_only (H := Mock.coprocessor)))).
    apply (reaches_later _ (mkEnv Mock.deployer 313)
                         (PublishResults 0 [0; 1; 1] Mock.proof)).
    apply (reaches_later _ (mkEnv Mock.deployer 313) (FinalizePoll 0)).
    apply (reaches_later _ (mkEnv Mock.voterB 13) (CastVote 0 2 Mock.proof)).
    apply (reaches_later _ (mkEnv Mock.voterA 13) (CastVote 0 1 Mock.proof)).
    apply reaches_here.
Defined.

(** ** What is fixed at creation *)

(** X3. Creation round trip: after a completed [createPoll], in every later
    storage [getPollSummary] of the returned identifier gives back the
    title, the window, the number of labels and the creator that were
    passed in, and [getPollOptions] gives back the labels; right after
    creation both flags read false. *)
Theorem creation_round_trip `{Coprocessor} env title labels start stop s
    pollId s1 :
  createPoll env title labels start stop s = Done pollId s1 →
  getPollSummary pollId s1
  = Done (title, start, stop, N.of_nat (length labels), false, false,
          sender env) s1 ∧
  (∀ s2, reaches s1 s2 →
     getPollOptions pollId s2 = Done labels s2 ∧
     ∃ fin pub,
       getPollSummary pollId s2
       = Done (title, start, stop, N.of_nat (length labels), fin, pub,
               sender env) s2).
Proof.
  rewrite createPoll_eq. unfold createPollOutcome. cbv zeta.
  destruct (_ || _); [done|]. destruct (_ || _); [done|].
  intros [= <- <-].
  set (s1 := set_events _ _).
  assert (polls s1 !! N.to_nat (N.of_nat (length (polls s)))
          = Some (newPoll env title labels start stop)) as Hp.
  { simpl. rewrite Nat2N.id. by apply list_lookup_middle. }
  split.
  - unfold getPollSummary. by rewrite (guarded_read_Some _ _ _ _ Hp).
  - intros s2 Hreach.
    destruct (reaches_polls _ _ _ _ Hreach Hp) as (p & Hp2 & Hgrow).
    destruct Hgrow as [Ht Ho [Ha Hb] Hc _ _]. simpl in *.
    split.
    + unfold getPollOptions. by rewrite (guarded_read_Some _ _ _ _ Hp2), Ho.
    + exists (finalized p), (resultsPublished p).
      unfold getPollSummary.
      by rewrite (guarded_read_Some _ _ _ _ Hp2), Ht, Ho, Ha, Hb, Hc.
Qed.

Lemma sampleCreated_to_published :
  reaches Mock.sampleCreated Mock.samplePublished.
Proof.
  apply (reaches_later _ (mkEnv Mock.deployer 313)
                       (PublishResults 0 [0; 1; 1] Mock.proof)).
  apply (reaches_later _ (mkEnv Mock.deployer 313) (FinalizePoll 0)).
  apply (reaches_later _ (mkEnv Mock.voterB 13) (CastVote 0 2 Mock.proof)).
  apply (reaches_later _ (mkEnv Mock.voterA 13) (CastVote 0 1 Mock.proof)).
  apply reaches_here.
Qed.

Lemma creation_round_trip_witness :
  getPollSummary 0 Mock.sampleCreated
  = Done ("Favorite language", 12, 312, 3, false, false, Mock.deployer)
         Mock.sampleCreated ∧
  getPollOptions 0 Mock.samplePublished
  = Done Mock.sampleLabels Mock.samplePublished.
Proof.
  destruct (creation_round_trip (H := Mock.coprocessor)
              (mkEnv Mock.deployer 10) "Favorite language" Mock.sampleLabels
              12 312 genesis 0 Mock.sampleCreated)
    as [Hfirst Hlater].
  - vm_compute. reflexivity.
  - split; [exact Hfirst|].
    exact (proj1 (Hlater Mock.samplePublished sampleCreated_to_published)).
Defined.

(** X4. Every poll of a reachable storage has between 2 and 4 options, as many
    tallies as options, a window with [startTime < endTime], and, once
    published, as many public results as options. *)
Theorem reachable_poll_shape `{Coprocessor} s (i : nat) p :
  reachable s → polls s !! i = Some p →
  (2 ≤ length (options p) ≤ 4)%nat ∧
  length (tallies p) = length (options p) ∧
  startTime p < endTime p ∧
  (resultsPublished p = true →
   length (publicResults p) = length (options p)).
Proof.
  intros Hs Hp. pose proof (reachable_lookup_wf _ _ _ Hs Hp) as Hwf.
  split_and!.
  - apply (wf_options p Hwf).
  - apply (wf_options p Hwf).
  - apply (wf_tallies p Hwf).
  - apply (wf_window p Hwf).
  - apply (wf_results p Hwf).
Qed.

Lemma reachable_poll_shape_witness :
  length (tallies samplePollPublished) = length (options samplePollPublished)
  ∧ length (publicResults samplePollPublished)
    = length (options samplePollPublished).
Proof.
  destruct (reachable_poll_shape (H := Mock.coprocessor) Mock.samplePublished
              0%nat samplePollPublished samplePublished_reachable
              samplePublished_poll) as (_ & Hlen & _ & Hres).
  split; [exact Hlen|]. apply Hres. reflexivity.
Defined.

(** ** Access flags of the tallies *)




Lemma sampleVoted_reachable : reachable Mock.sampleVoted.
Proof. eapply chain_reachable, sampleVoted_chain. Qed.


(** ** After finalization and after publication *)

Lemma effect_frozen `{Coprocessor} env s c s' (i : nat) p :
  effect env s c s' → polls s !! i = Some p → finalized p = true →
  ∃ p', polls s' !! i = Some p' ∧ finalized p' = true ∧
        tallies p' = tallies p.
Proof.
  intros [t o a b Ho Hab Hb|pid e j q v Hq Hwin Hfin Hvoted Hv Hlen
         |pid q Hq Hend Hfin|pid r d q Hq Hfin Hpub Hlen Hsig] Hp Hdone.
  - exists p. split; [|done]. simpl. by apply lookup_app_l_Some.
  - destruct (decide (i = N.to_nat pid)) as [->|Hne]; [congruence|].
    exists p. split; [|done]. simpl. by rewrite list_lookup_insert_ne.
  - destruct (decide (i = N.to_nat pid)) as [->|Hne]; [congruence|].
    exists p. split; [|done]. simpl. by rewrite list_lookup_insert_ne.
  - destruct (decide (i = N.to_nat pid)) as [->|Hne].
    + assert (q = p) as -> by congruence. eexists.
      split; [by eapply lookup_updPoll|]. done.
    + exists p. split; [|done]. simpl. by rewrite list_lookup_insert_ne.
Qed.

(** X6. Finalization freezes the tallies and closes the vote for good: in
    every storage that follows one where the poll is finalized, whatever
    the timestamps of the transactions, [getEncryptedTallies] returns the
    very handles it returned then, and no call of [castVote] on the poll
    completes. *)
Theorem tallies_frozen_after_finalize `{Coprocessor} s s' pollId p :
  polls s !! N.to_nat pollId = Some p → finalized p = true →
  reaches s s' →
  getEncryptedTallies pollId s' = Done (tallies p) s' ∧
  (∀ env e i s'', castVote env pollId e i s' ≠ Done tt s'').
Proof.
  intros Hp Hfin Hreach.
  assert (∃ p', polls s' !! N.to_nat pollId = Some p' ∧
                finalized p' = true ∧ tallies p' = tallies p)
    as (p' & Hp' & Hfin' & Ht).
  { induction Hreach as [|env c s' _ IH]; [by exists p|].
    destruct IH as (q & Hq & Hfq & Htq).
    destruct (transact_effect env c s') as [->|He]; [by exists q|].
    destruct (effect_frozen _ _ _ _ _ _ He Hq Hfq) as (q' & ? & ? & ?).
    exists q'. split_and!; [done..|congruence]. }
  split.
  - rewrite <- Ht. exact (guarded_read_Some pollId tallies s' p' Hp').
  - intros env e i s'' Hdone.
    apply (exec_effect env (CastVote pollId e i)) in Hdone.
    inversion Hdone; subst. congruence.
Qed.

Lemma tallies_frozen_after_finalize_witness :
  getEncryptedTallies 0 Mock.samplePublished
  = Done (tallies samplePollFinal) Mock.samplePublished.
Proof.
  apply (tallies_frozen_after_finalize (H := Mock.coprocessor)
           Mock.sampleFinalized Mock.samplePublished 0 samplePollFinal
           sampleFinalized_poll eq_refl).
  apply (reaches_later _ (mkEnv Mock.deployer 313)
                       (PublishResults 0 [0; 1; 1] Mock.proof)).
  apply reaches_here.
Defined.

Lemma effect_published `{Coprocessor} env s c s' (i : nat) p :
  effect env s c s' → polls s !! i = Some p → resultsPublished p = true →
  ∃ p', polls s' !! i = Some p' ∧ resultsPublished p' = true ∧
        publicResults p' = publicResults p ∧
        publicDecryptionProof p' = publicDecryptionProof p.
Proof.
  intros [t o a b Ho Hab Hb|pid e j q v Hq Hwin Hfin Hvoted Hv Hlen
         |pid q Hq Hend Hfin|pid r d q Hq Hfin Hpub Hlen Hsig] Hp Hdone.
  - exists p. split; [|done]. simpl. by apply lookup_app_l_Some.
  - destruct (decide (i = N.to_nat pid)) as [->|Hne].
    + assert (q = p) as -> by congruence. eexists.
      split; [by eapply lookup_updPoll|]. done.
    + exists p. split; [|done]. simpl. by rewrite list_lookup_insert_ne.
  - destruct (decide (i = N.to_nat pid)) as [->|Hne].
    + assert (q = p) as -> by congruence. eexists.
      split; [by eapply lookup_updPoll|]. done.
    + exists p. split; [|done]. simpl. by rewrite list_lookup_insert_ne.
  - destruct (decide (i = N.to_nat pid)) as [->|Hne]; [congruence|].
    exists p. split; [|done]. simpl. by rewrite list_lookup_insert_ne.
Qed.

(** X7. Published results are final: once [resultsPublished] is set, every
    later storage returns the same clear results and the same proof from
    [getPublishedResults]. *)
Theorem published_results_final `{Coprocessor} s s' pollId p :
  polls s !! N.to_nat pollId = Some p → resultsPublished p = true →
  reaches s s' →
  getPublishedResults pollId s'
  = Done (publicResults p, publicDecryptionProof p) s'.
Proof.
  intros Hp Hpub Hreach.
  assert (∃ p', polls s' !! N.to_nat pollId = Some p' ∧
                resultsPublished p' = true ∧
                publicResults p' = publicResults p ∧
                publicDecryptionProof p' = publicDecryptionProof p)
    as (p' & Hp' & _ & Hr & Hd).
  { induction Hreach as [|env c s' _ IH]; [by exists p|].
    destruct IH as (q & Hq & Hpq & Hrq & Hdq).
    destruct (transact_effect env c s') as [->|He]; [by exists q|].
    destruct (effect_published _ _ _ _ _ _ He Hq Hpq)
      as (q' & ? & ? & ? & ?).
    exists q'. split_and!; [done..|congruence|congruence]. }
  rewrite <- Hr, <- Hd. unfold getPublishedResults.
  exact (guarded_read_Some pollId _ s' p' Hp').
Qed.

Lemma published_results_final_witness :
  getPublishedResults 0
    (transact (mkEnv Mock.voterA 400) (PublishResults 0 [9; 9; 9] Mock.proof)
              Mock.samplePublished)
  = Done ([0; 1; 1], Mock.proof)
      (transact (mkEnv Mock.voterA 400) (PublishResults 0 [9; 9; 9] Mock.proof)
                Mock.samplePublished).
Proof.
  apply (published_results_final (H := Mock.coprocessor)
           Mock.samplePublished _ 0 samplePollPublished
           samplePublished_poll eq_refl).
  apply reaches_later, reaches_here.
Defined.

(** X8. On a chain, results are never published before the end of the voting
    window: a published poll has [endTime] at or before the latest block
    timestamp. *)
Theorem no_results_before_end `{Coprocessor} now s (i : nat) p :
  chain now s → polls s !! i = Some p → resultsPublished p = true →
  endTime p <= now.
Proof.
  intros Hchain Hp Hpub.
  pose proof (chain_closedPolls _ _ Hchain) as Hclosed.
  eapply Forall_lookup_1 in Hclosed; [|done]. apply Hclosed.
  apply (wf_published p); [|done].
  eapply reachable_lookup_wf; [by eapply chain_reachable|done].
Qed.

Lemma no_results_before_end_witness : 312 <= 313.
Proof.
  exact (no_results_before_end (H := Mock.coprocessor) 313
           Mock.samplePublished 0%nat samplePollPublished
           samplePublished_chain samplePublished_poll eq_refl).
Defined.

(** ** Receipts, notifications and tallies *)

Lemma elem_of_snoc {A : Type} (l : list A) (x y : A) :
  x ∈ l ++ [y] ↔ x ∈ l ∨ x = y.
Proof. rewrite elem_of_app, list_elem_of_singleton. done. Qed.

Lemma effect_receipt_event `{Coprocessor} env s c s' :
  effect env s c s' →
  (∀ pid u, hasVoted pid u s = true ↔ VoteSubmitted pid u ∈ events s) →
  (∀ pid u, hasVoted pid u s' = true ↔ VoteSubmitted pid u ∈ events s').
Proof.
  intros [t o a b Ho Hab Hb|pid e i p v Hp Hwin Hfin Hvoted Hv Hlen
         |pid p Hp Hend Hfin|pid r d p Hp Hfin Hpub Hlen Hsig] Hs pid' u;
    simpl events; rewrite elem_of_snoc; unfold hasVoted in *; simpl votes.
  - rewrite Hs. split; [by left|]. by intros [?|?].
  - rewrite lookup_insert, <- Hs. case_decide as Heq.
    + injection Heq as -> ->. split; [by right|done].
    + split; [by left|]. intros [?|[= -> ->]]; [done|by destruct Heq].
  - rewrite Hs. split; [by left|]. by intros [?|?].
  - rewrite Hs. split; [by left|]. by intros [?|?].
Qed.

(** X9. Receipts and notifications agree: in every reachable storage
    [hasUserVoted] answers true for a poll of the registry and a user
    exactly when a [VoteSubmitted] event for that poll and user has been
    emitted. *)
Theorem receipt_iff_event `{Coprocessor} s pollId user p :
  reachable s → polls s !! N.to_nat pollId = Some p →
  (hasUserVoted pollId user s = Done true s ↔
   VoteSubmitted pollId user ∈ events s).
Proof.
  intros Hs Hp.
  assert (∀ pid u, hasVoted pid u s = true ↔ VoteSubmitted pid u ∈ events s)
    as Hinv.
  { clear Hp. induction Hs as [|env c s _ IH].
    - intros pid u. unfold hasVoted. simpl. rewrite lookup_empty. simpl.
      split; [done|]. by intros ?%elem_of_nil.
    - destruct (transact_effect env c s) as [->|He]; [done|].
      by eapply effect_receipt_event. }
  unfold hasUserVoted. run (pollExists_Some _ _ _ Hp). unfold gets.
  rewrite <- Hinv. split; [by intros [= ->]|by intros ->].
Qed.

Lemma receipt_iff_event_witness :
  VoteSubmitted 0 Mock.voterB ∈ events Mock.sampleVoted.
Proof.
  apply (proj1 (receipt_iff_event (H := Mock.coprocessor) Mock.sampleVoted 0
                  Mock.voterB samplePollAB sampleVoted_reachable
                  sampleVoted_poll)).
  vm_compute. reflexivity.
Defined.

(** The number of [VoteSubmitted] events of a poll in a log. *)
Fixpoint votesCast (pollId : N) (evs : list Event) : N :=
  match evs with
  | [] => 0
  | VoteSubmitted q _ :: evs' =>
      (if q =? pollId then 1 else 0) + votesCast pollId evs'
  | _ :: evs' => votesCast pollId evs'
  end.

Definition sumN (l : list N) : N := foldr N.add 0 l.

Lemma votesCast_snoc pollId evs ev :
  votesCast pollId (evs ++ [ev]) = votesCast pollId evs + votesCast pollId [ev].
Proof.
  induction evs as [|e evs IH]; [done|].
  destruct e; simpl in *; rewrite ?IH; lia.
Qed.

Lemma sumN_alter_bump (i : nat) (l : list N) :
  sumN (alter bump i l) <= sumN l + 1.
Proof.
  unfold sumN. revert i.
  induction l as [|x l IH]; intros [|i]; simpl; try lia.
  - pose proof (N.Div0.mod_le (x + 1) uint32_modulus). unfold bump. lia.
  - specialize (IH i). unfold alter in IH. lia.
Qed.

Lemma sumN_replicate_zero (n : nat) : sumN (replicate n 0) = 0.
Proof. induction n as [|n IH]; [done|]. simpl. by rewrite IH. Qed.

Definition talliesBounded (s : Storage) : Prop :=
  ∀ (i : nat) p, polls s !! i = Some p →
    (length (tallies p) ≤ 4)%nat ∧
    length (tallies p) = length (options p) ∧
    sumN (hidden (tallies p)) <= votesCast (N.of_nat i) (events s).

Lemma effect_talliesBounded `{Coprocessor} env s c s' :
  effect env s c s' → talliesBounded s → talliesBounded s'.
Proof.
  intros [t o a b Ho Hab Hb|pid e j q v Hq Hwin Hfin Hvoted Hv Hlen
         |pid q Hq Hend Hfin|pid r d q Hq Hfin Hpub Hlen Hsig] Hs i p Hp;
    simpl events; rewrite votesCast_snoc; simpl in Hp.
  - simpl. rewrite N.add_0_r. apply lookup_app_Some in Hp as [Hp|[_ Hp]].
    + by apply Hs.
    + apply list_lookup_singleton_Some in Hp as [_ <-]. simpl.
      rewrite length_replicate. split_and!; [lia|done|].
      unfold hidden. rewrite fmap_replicate. simpl.
      rewrite sumN_replicate_zero. lia.
  - destruct (decide (i = N.to_nat pid)) as [->|Hne].
    + rewrite list_lookup_insert_eq in Hp by (by apply lookup_lt_Some in Hq).
      injection Hp as <-. destruct (Hs _ _ Hq) as (H4 & Heq & Hsum).
      simpl. rewrite length_mapRange. split_and!; [done..|].
      rewrite <- Heq, hidden_voted, imap_countCell_one by done.
      rewrite N2Nat.id, N.eqb_refl in *.
      pose proof (sumN_alter_bump (N.to_nat (FHE.clear (FHE.asEuint32 v)))
                    (hidden (tallies q))). lia.
    + rewrite list_lookup_insert_ne in Hp by done.
      destruct (Hs _ _ Hp) as (H4 & Heq & Hsum). split_and!; [done..|].
      simpl. lia.
  - simpl. rewrite N.add_0_r.
    destruct (decide (i = N.to_nat pid)) as [->|Hne].
    + rewrite list_lookup_insert_eq in Hp by (by apply lookup_lt_Some in Hq).
      injection Hp as <-. destruct (Hs _ _ Hq) as (H4 & Heq & Hsum).
      rewrite finalizedPoll_hidden. simpl. by rewrite length_fmap.
    + rewrite list_lookup_insert_ne in Hp by done. by apply Hs.
  - simpl. rewrite N.add_0_r.
    destruct (decide (i = N.to_nat pid)) as [->|Hne].
    + rewrite list_lookup_insert_eq in Hp by (by apply lookup_lt_Some in Hq).
      assert (p = publishedPoll r d q) as -> by congruence.
      exact (Hs _ _ Hq).
    + rewrite list_lookup_insert_ne in Hp by done. by apply Hs.
Qed.

(** X10. No ballot is counted twice: in every reachable storage the hidden
    tallies of a poll add up to at most the number of votes submitted to
    that poll. *)
Theorem tally_sum_bounded `{Coprocessor} s pollId p :
  reachable s → polls s !! N.to_nat pollId = Some p →
  sumN (hidden (tallies p)) <= votesCast pollId (events s).
Proof.
  intros Hs Hp.
  assert (talliesBounded s) as Hinv.
  { clear Hp. induction Hs as [|env c s _ IH]; [by intros i q ?|].
    destruct (transact_effect env c s) as [->|He]; [done|].
    by eapply effect_talliesBounded. }
  destruct (Hinv _ _ Hp) as (_ & _ & Hsum). by rewrite N2Nat.id in Hsum.
Qed.

Lemma tally_sum_bounded_witness :
  sumN (hidden (tallies samplePollFinal))
  <= votesCast 0 (events Mock.sampleFinalized).
Proof.
  exact (tally_sum_bounded (H := Mock.coprocessor) Mock.sampleFinalized 0
           samplePollFinal sampleFinalized_reachable sampleFinalized_poll).
Defined.

(** ** Completion of a vote *)

(** X11. A vote whose input proof is rejected: the receipt had already been
    written when [FHE.fromExternal] failed, and the revert takes it back,
    so the storage is unchanged and the caller has still not voted. *)
Theorem rejected_input_rolls_back `{Coprocessor} env pollId e i s p :
  polls s !! N.to_nat pollId = Some p →
  startTime p <= timestamp env < endTime p →
  finalized p = false →
  hasVoted pollId (sender env) s = false →
  verifyInput (sender env) e i = None →
  ∃ dirty,
    castVote env pollId e i s = Revert InvalidInputProof dirty ∧
    hasVoted pollId (sender env) dirty = true ∧
    transact env (CastVote pollId e i) s = s ∧
    hasUserVoted pollId (sender env) (transact env (CastVote pollId e i) s)
    = Done false s.
Proof.
  intros Hp Hwin%windowClosed_false Hfin Hvoted Hv.
  pose proof (castVote_run env pollId e i s) as Hrun.
  rewrite Hp, Hwin, Hfin, Hvoted, Hv in Hrun.
  assert (transact env (CastVote pollId e i) s = s) as Hsame
    by (by eapply transact_Revert).
  eexists. split; [exact Hrun|]. split_and!.
  - rewrite hasVoted_insert. by case_decide.
  - done.
  - rewrite Hsame. unfold hasUserVoted. run (pollExists_Some _ _ _ Hp).
    unfold gets. by rewrite Hvoted.
Qed.

Lemma rejected_input_rolls_back_witness :
  ∃ dirty,
    castVote (mkEnv Mock.voterA 13) 0 1 [] Mock.sampleCreated
    = Revert InvalidInputProof dirty ∧
    hasVoted 0 Mock.voterA dirty = true ∧
    transact (mkEnv Mock.voterA 13) (CastVote 0 1 []) Mock.sampleCreated
    = Mock.sampleCreated.
Proof.
  destruct (rejected_input_rolls_back (H := Mock.coprocessor)
              (mkEnv Mock.voterA 13) 0 1 [] Mock.sampleCreated samplePoll
              sampleCreated_poll)
    as (dirty & Hrun & Hdirty & Hsame & _).
  - split; vm_compute; [discriminate|reflexivity].
  - reflexivity.
  - vm_compute. reflexivity.
  - reflexivity.
  - exists dirty. split; [exact Hrun|]. split; [exact Hdirty|exact Hsame].
Defined.

(** X12. In a reachable storage [castVote] completes exactly when the poll
    exists, the timestamp is inside [startTime, endTime), the poll is not
    finalized, the caller holds no receipt and the input proof is
    accepted; no other condition (and no array bound) can make it
    revert. *)
Theorem castVote_completes_iff `{Coprocessor} env pollId e i s :
  reachable s →
  ((∃ s', castVote env pollId e i s = Done tt s') ↔
   ∃ p, polls s !! N.to_nat pollId = Some p ∧
        startTime p <= timestamp env < endTime p ∧
        finalized p = false ∧
        hasVoted pollId (sender env) s = false ∧
        is_Some (verifyInput (sender env) e i)).
Proof.
  intros Hs. split.
  - intros [s' Hdone].
    apply (exec_effect env (CastVote pollId e i)) in Hdone.
    inversion Hdone as [|? ? ? p v Hp Hwin Hfin Hvoted Hv _| |]; subst.
    exists p. split; [done|]. split; [done|]. split; [done|].
    split; [done|by exists v].
  - intros (p & Hp & Hwin & Hfin & Hvoted & [v Hv]).
    exists (castVoteStorage env pollId v p s).
    apply (exec_effect env (CastVote pollId e i)).
    econstructor; eauto.
    by rewrite (wf_tallies p (reachable_lookup_wf _ _ _ Hs Hp)).
Qed.

Lemma castVote_completes_iff_witness :
  ∃ s', castVote (mkEnv Mock.voterB 13) 0 2 Mock.proof Mock.sampleVotedA
        = Done tt s'.
Proof.
  apply (proj2 (castVote_completes_iff (H := Mock.coprocessor)
                  (mkEnv Mock.voterB 13) 0 2 Mock.proof Mock.sampleVotedA
                  (chain_reachable _ _ sampleVotedA_chain))).
  exists samplePollA. split; [apply sampleVotedA_poll|].
  split; [split; vm_compute; [discriminate|reflexivity]|].
  split; [reflexivity|]. split; [vm_compute; reflexivity|].
  exists 2. vm_compute. reflexivity.
Defined.

(** ** What a call leaves alone *)

(** X13. The only poll a completed call writes is its target: [castVote],
    [finalizePoll] and [publishResults] leave every other poll of the
    registry as it is, and [castVote] changes nothing but the tallies of
    its target; [createPoll] leaves every existing poll as it is.  A
    receipt appears only for the sender of a [castVote]. *)
Theorem call_frame `{Coprocessor} env c s :
  (∀ (j : nat),
     match c with
     | CreatePoll _ _ _ _ => (j < length (polls s))%nat
     | CastVote pollId _ _ | FinalizePoll pollId
     | PublishResults pollId _ _ => j ≠ N.to_nat pollId
     end →
     polls (transact env c s) !! j = polls s !! j) ∧
  (∀ pollId e i p,
     c = CastVote pollId e i → polls s !! N.to_nat pollId = Some p →
     ∃ ts, polls (transact env c s) !! N.to_nat pollId
           = Some (set_tallies ts p)) ∧
  (∀ pollId user,
     hasVoted pollId user (transact env c s) = true →
     hasVoted pollId user s = true ∨
     (user = sender env ∧ ∃ e i, c = CastVote pollId e i)).
Proof.
  destruct (transact_effect env c s) as [Hsame|He].
  { rewrite Hsame. split_and!; [done| |by left].
    intros pollId e i p _ Hp. exists (tallies p).
    by rewrite setter_tallies_id. }
  destruct He as [t o a b Ho Hab Hb|pid e i p v Hp Hwin Hfin Hvoted Hv Hlen
                 |pid p Hp Hend Hfin|pid r d p Hp Hfin Hpub Hlen Hsig].
  - split_and!; [|done|by left].
    intros j Hj. simpl. by apply lookup_app_l.
  - split_and!.
    + intros j Hj. simpl. by apply list_lookup_insert_ne.
    + intros pid' e' i' p' [= <- <- <-] Hp'.
      assert (p' = p) as -> by congruence. eexists.
      by apply castVoteStorage_poll.
    + intros pid' user Hv'.
      change (hasVoted pid' user
                (set_votes (<[(pid, sender env) := true]>) s) = true) in Hv'.
      rewrite hasVoted_insert in Hv'. case_decide as Heq; [|by left].
      injection Heq as <- <-. right. split; [done|]. by exists e, i.
  - split_and!; [|done|by left].
    intros j Hj. simpl. by apply list_lookup_insert_ne.
  - split_and!; [|done|by left].
    intros j Hj. simpl. by apply list_lookup_insert_ne.
Qed.

(** A second poll beside the sample one, and a vote in the sample poll. *)
Definition twoPolls : Storage :=
  transact (mkEnv Mock.voterB 11) (CreatePoll "Lunch" ["yes"; "no"] 12 312)
           Mock.sampleCreated.

Lemma call_frame_witness :
  polls (transact (mkEnv Mock.voterA 13) (CastVote 0 1 Mock.proof) twoPolls)
    !! 1%nat
  = polls twoPolls !! 1%nat.
Proof.
  apply (proj1 (call_frame (H := Mock.coprocessor) (mkEnv Mock.voterA 13)
                  (CastVote 0 1 Mock.proof) twoPolls) 1%nat).
  vm_compute. discriminate.
Defined.

(** ** The log of created polls *)

(** The [PollCreated] notifications of a log, in order, and what the
    registry says about its polls, in order. *)
Definition createdLog (evs : list Event) : list (N * string * N * N) :=
  omap (λ ev, match ev with
              | PollCreated i t a b => Some (i, t, a, b)
              | _ => None
              end) evs.

Definition registryLog (ps : list Poll) : list (N * string * N * N) :=
  imap (λ i p, (N.of_nat i, title p, startTime p, endTime p)) ps.

Lemma registryLog_insert ps (i : nat) p p' :
  ps !! i = Some p →
  title p' = title p → startTime p' = startTime p → endTime p' = endTime p →
  registryLog (<[i := p']> ps) = registryLog ps.
Proof.
  intros Hp Ht Ha Hb. apply list_eq; intros j. unfold registryLog.
  rewrite !list_lookup_imap. destruct (decide (i = j)) as [->|Hne].
  - rewrite list_lookup_insert_eq by (by apply lookup_lt_Some in Hp).
    rewrite Hp. simpl. by rewrite Ht, Ha, Hb.
  - by rewrite list_lookup_insert_ne.
Qed.

Lemma effect_createdLog `{Coprocessor} env s c s' :
  effect env s c s' →
  createdLog (events s) = registryLog (polls s) →
  createdLog (events s') = registryLog (polls s').
Proof.
  intros [t o a b Ho Hab Hb|pid e i p v Hp Hwin Hfin Hvoted Hv Hlen
         |pid p Hp Hend Hfin|pid r d p Hp Hfin Hpub Hlen Hsig] Hs;
    unfold createdLog in *; simpl events; simpl polls;
    rewrite omap_app; simpl; rewrite Hs.
  - unfold registryLog. rewrite imap_app. simpl.
    by rewrite Nat.add_0_r.
  - rewrite app_nil_r. symmetry. by eapply registryLog_insert.
  - rewrite app_nil_r. symmetry. by eapply registryLog_insert.
  - rewrite app_nil_r. symmetry. by eapply registryLog_insert.
Qed.

(** X14. The event log tells the registry: in every reachable storage the
    [PollCreated] events, in the order of emission, carry the identifier,
    title and window of the polls of the registry, in the order of their
    identifiers; in particular there is exactly one such event per poll. *)
Theorem created_events_list_registry `{Coprocessor} s :
  reachable s → createdLog (events s) = registryLog (polls s).
Proof.
  induction 1 as [|env c s _ IH]; [done|].
  destruct (transact_effect env c s) as [->|He]; [done|].
  by eapply effect_createdLog.
Qed.

Lemma created_events_list_registry_witness :
  createdLog (events Mock.samplePublished)
  = [(0, "Favorite language", 12, 312)].
Proof.
  exact (created_events_list_registry (H := Mock.coprocessor)
           Mock.samplePublished samplePublished_reachable).
Defined.

(** ** Published results under a sound verifier *)

Section SoundVerifier.
Context `{Coprocessor}.

(** The verifier accepts only the values the handles hide. *)
Hypothesis verifier_sound : ∀ hs cs d,
  verifySignatures hs cs d = true → hidden hs = cs.

Definition truthful (p : Poll) : Prop :=
  (resultsPublished p = true → finalized p = true) ∧
  (resultsPublished p = true → publicResults p = hidden (tallies p)).

Lemma effect_truthful env s c s' :
  effect env s c s' → Forall truthful (polls s) → Forall truthful (polls s').
Proof using verifier_sound.
  intros [t o a b Ho Hab Hb|pid e i p v Hp Hwin Hfin Hvoted Hv Hlen
         |pid p Hp Hend Hfin|pid r d p Hp Hfin Hpub Hlen Hsig] Hs.
  - simpl. apply Forall_app. split; [done|]. apply Forall_singleton.
    by split.
  - apply Forall_insert; [done|].
    eapply Forall_lookup_1 in Hs as [Hfp _]; [|done].
    split; simpl; intros Hpub; specialize (Hfp Hpub); congruence.
  - apply Forall_insert; [done|].
    eapply Forall_lookup_1 in Hs as [Hfp _]; [|done].
    split; simpl; intros Hpub; [done|]. specialize (Hfp Hpub). congruence.
  - apply Forall_insert; [done|]. split; simpl; intros _; [done|].
    symmetry. by eapply verifier_sound.
Qed.

(** X15. With a verifier that accepts only true decryptions, every published
    result is the hidden value of its tally: in a reachable storage a
    published poll has [publicResults] equal to the values its tallies
    hide. *)
Theorem published_results_are_tallies s (i : nat) p :
  reachable s → polls s !! i = Some p → resultsPublished p = true →
  publicResults p = hidden (tallies p).
Proof using verifier_sound.
  intros Hs Hp Hpub.
  assert (Forall truthful (polls s)) as Hinv.
  { clear Hp. induction Hs as [|env c s _ IH]; [by constructor|].
    destruct (transact_effect env c s) as [->|He]; [done|].
    by eapply effect_truthful. }
  eapply Forall_lookup_1 in Hinv as [_ Htrue]; [|done]. by apply Htrue.
Qed.
End SoundVerifier.

Lemma mock_verifier_sound hs cs d :
  verifySignatures hs cs d = true → hidden hs = cs.
Proof.
  simpl. intros [_ Hsame]%andb_true_iff.
  by apply bool_decide_eq_true_1 in Hsame.
Qed.

Lemma published_results_are_tallies_witness :
  publicResults samplePollPublished = hidden (tallies samplePollPublished).
Proof.
  exact (published_results_are_tallies (H := Mock.coprocessor)
           mock_verifier_sound Mock.samplePublished 0%nat samplePollPublished
           samplePublished_reachable samplePublished_poll eq_refl).
Defined.

(** ** Notifications *)



